(** * UnoGarageOpener: the door-state engine of GarageOpener.ino

    A shallow embedding of the two revisions of the sketch that live in
    [src/GarageOpener.ino]: the first one (lines 1-312, a single [/trigger]
    command) is [Module V1], the second one (lines 313-600, direction-aware
    [/open] and [/close] commands) is [Module V2].

    Conventions.
    - C [int] values are [Z]; [unsigned long] values are [Z] reduced modulo
      [2^32] where the sketch subtracts them.
    - [enum door_status_id] is an inductive type; [door_status_code] gives the
      integer each enumerator stands for, and the sketch's [==] on statuses is
      [status_eqb], equality of those integers.
    - A [char *] that may be [NULL] is an [option string]; the empty String is
      [EmptyString].
    - The globals [door_status] and [last_door_trigger], the static local
      [current_line] of [proccess_command] and everything the sketch writes to
      pins and to the client make up the record [controller].
    - What the hardware hands to one call ([digitalRead] of the two reed
      switches, [millis()]) is a [readings] record passed to that call.
    - A function of the sketch that can reach the end of its body without a
      [return] (the table scans) yields [None] there: its value is undefined
      in C. Callers propagate [None]. *)

From Stdlib Require Import ZArith List String Ascii Bool Lia.
Import ListNotations.

Local Open Scope string_scope.
Local Open Scope Z_scope.

(** ** Undefined results *)

Definition bind {A B : Type} (m : option A) (k : A -> option B) : option B :=
  match m with
  | Some a => k a
  | None => None
  end.

Notation "x <- m ;; k" := (bind m (fun x => k))
  (at level 61, m at next level, right associativity).

(** ** Statuses (both revisions declare the same enumeration) *)

Inductive door_status_id : Type :=
  | open_status
  | opening_status
  | closed_status
  | closing_status
  | stuck_status
  | cancelled_status
  | error_status.

Definition door_status_code (s : door_status_id) : Z :=
  match s with
  | open_status => 0
  | opening_status => 1
  | closed_status => 2
  | closing_status => 3
  | stuck_status => 4
  | cancelled_status => 5
  | error_status => 6
  end.

(** [a == b] on two statuses. *)
Definition status_eqb (a b : door_status_id) : bool :=
  door_status_code a =? door_status_code b.

(** ** Pins, hardware readings and what the sketch emits *)

Definition trigger_door_pin : Z := 4.
Definition switch_closed_pin : Z := 3.
Definition switch_open_pin : Z := 2.

Definition door_move_timeout : Z := 20000.

Record readings : Type := mkReadings {
  switch_open : Z;     (* level of the door-open reed switch *)
  switch_closed : Z;   (* level of the door-closed reed switch *)
  millis : Z           (* the millisecond clock *)
}.

Definition digitalRead (pin : Z) (r : readings) : Z :=
  if pin =? switch_open_pin then switch_open r
  else if pin =? switch_closed_pin then switch_closed r
  else 0.

Inductive event : Type :=
  | DigitalWrite (pin : Z) (high : bool)
  | Delay (ms : Z)
  | ClientPrintln (s : string)
  | ClientPrint (s : string)
  | ClientStop
  | LogDoorStatus (description : string) (remote_trigger : bool).

Record controller : Type := mkController {
  door_status : door_status_id;
  last_door_trigger : Z;
  current_line : string;
  emitted : list event
}.

Definition set_door_status (s : door_status_id) (st : controller) : controller :=
  mkController s (last_door_trigger st) (current_line st) (emitted st).

Definition set_last_door_trigger (t : Z) (st : controller) : controller :=
  mkController (door_status st) t (current_line st) (emitted st).

Definition set_current_line (l : string) (st : controller) : controller :=
  mkController (door_status st) (last_door_trigger st) l (emitted st).

Definition emit (es : list event) (st : controller) : controller :=
  mkController (door_status st) (last_door_trigger st) (current_line st)
    (emitted st ++ es).

(** The three writes of "Trigger the door button". *)
Definition press_button : list event :=
  [DigitalWrite trigger_door_pin true; Delay 1000;
   DigitalWrite trigger_door_pin false].

Definition is_button_high (e : event) : bool :=
  match e with
  | DigitalWrite pin true => pin =? trigger_door_pin
  | _ => false
  end.

(** How many times the actuator output was driven high. *)
Definition pulses (st : controller) : nat :=
  List.length (filter is_button_high (emitted st)).

(** ** The sentinel-terminated table scan

    [for ( ; p_entry->description != NULL ; p_entry++ ) body]: the rows are
    visited in order until one whose description is [NULL]; [body] returning
    [Some] is a [return] from inside the loop, [None] is leaving the loop at
    the sentinel. *)

Fixpoint scan_table {E A : Type} (description : E -> option string)
    (body : E -> option A) (table : list E) : option A :=
  match table with
  | [] => None
  | p_entry :: rest =>
      match description p_entry with
      | None => None
      | Some _ =>
          match body p_entry with
          | Some a => Some a
          | None => scan_table description body rest
          end
      end
  end.

(** ** Arduino's String *)

Definition endsWith (s suffix : string) : bool :=
  let n := String.length s in
  let m := String.length suffix in
  if (n <? m)%nat then false
  else String.eqb (substring (n - m) m s) suffix.

Definition append_char (s : string) (c : ascii) : string :=
  String.append s (String c EmptyString).

Definition newline : ascii := "010"%char.
Definition carriage_return : ascii := "013"%char.

(** [millis() - last_door_trigger] on [unsigned long]. *)
Definition elapsed (now last : Z) : Z := (now - last) mod 2 ^ 32.

(** * Revision 1: the [/trigger] command *)

Module V1.

Inductive command_id : Type :=
  | refresh_command
  | trigger_command
  | invalid_command.

(** The second field is [id] in the sketch; the name is taken here by the
    status table's rows. *)
Record command_table_entry : Type := mkCommand {
  command : option string;
  command_code_of : command_id
}.

(** Declared by the sketch; no function of the sketch reads it. *)
Definition command_table : list command_table_entry :=
  [ mkCommand (Some "refresh") refresh_command;
    mkCommand (Some "trigger") trigger_command;
    mkCommand None invalid_command ].

(** Whether a text is one of the command strings of [command_table]. *)
Definition names_command (text : string) : bool :=
  existsb (fun e => match command e with
                    | Some s => String.eqb s text
                    | None => false
                    end) command_table.

Record door_status_table_entry : Type := mkEntry {
  id : door_status_id;
  open_switch_value : Z;
  closed_switch_value : Z;
  next_id : door_status_id;
  description : option string
}.

(** The last row is [{ NULL }]: [id] is enumerator 0 and every other field
    is zero. *)
Definition door_status_table : list door_status_table_entry :=
  [ mkEntry open_status      1 0 closing_status   (Some "open");
    mkEntry closed_status    0 1 opening_status   (Some "closed");
    mkEntry error_status     1 1 error_status     (Some "reed_error");
    mkEntry stuck_status     0 0 stuck_status     (Some "stuck");
    mkEntry opening_status   0 0 cancelled_status (Some "opening");
    mkEntry cancelled_status 0 0 closing_status   (Some "cancelled");
    mkEntry closing_status   0 0 opening_status   (Some "closing");
    mkEntry open_status      0 0 open_status      None ].

(** Lines 267-278 of [get_door_status], on the two sampled levels. *)
Definition door_status_of_switches (door_open door_closed : Z)
    (current : door_status_id) : option door_status_id :=
  if status_eqb current cancelled_status
     && (door_open =? 0) && (door_closed =? 0)
  then Some cancelled_status
  else
    scan_table description
      (fun p_entry =>
         if (door_open =? open_switch_value p_entry)
            && (door_closed =? closed_switch_value p_entry)
         then Some (id p_entry) else None)
      door_status_table.

Definition get_door_status (r : readings) (st : controller)
    : option door_status_id :=
  let door_open := digitalRead switch_open_pin r in
  let door_closed := digitalRead switch_closed_pin r in
  door_status_of_switches door_open door_closed (door_status st).

Definition door_status_string (current : door_status_id) : option string :=
  scan_table description
    (fun p_entry =>
       if status_eqb current (id p_entry) then description p_entry else None)
    door_status_table.

Definition next_door_status (current : door_status_id)
    : option door_status_id :=
  scan_table description
    (fun p_entry =>
       if status_eqb current (id p_entry) then Some (next_id p_entry)
       else None)
    door_status_table.

Definition trigger_door (r : readings) (st : controller)
    : option controller :=
  if status_eqb (door_status st) stuck_status
     || status_eqb (door_status st) error_status
  then Some st
  else
    let st := emit press_button st in
    let st := set_last_door_trigger (millis r) st in
    next <- next_door_status (door_status st) ;;
    Some (set_door_status next st).

(** [door_status = get_door_status();] *)
Definition refresh (r : readings) (st : controller) : option controller :=
  s <- get_door_status r st ;;
  Some (set_door_status s st).

Definition log_door_status (st : controller) : option controller :=
  d <- door_status_string (door_status st) ;;
  Some (emit [LogDoorStatus d (0 <? last_door_trigger st)] st).

Definition switch_interrupt (r : readings) (st : controller)
    : option controller :=
  st <- refresh r st ;;
  st <- log_door_status st ;;
  Some (set_last_door_trigger 0 st).

(** The timeout test at the end of [loop]. *)
Definition loop_timeout (r : readings) (st : controller)
    : option controller :=
  if (0 <? last_door_trigger st)
     && (door_move_timeout <=? elapsed (millis r) (last_door_trigger st))
  then refresh r st
  else Some st.

Definition respond (st : controller) : option controller :=
  d <- door_status_string (door_status st) ;;
  Some (emit [ClientPrintln "HTTP/1.1 200 OK";
              ClientPrintln "Content-type:text/html";
              ClientPrintln EmptyString;
              ClientPrint d;
              ClientPrintln EmptyString;
              ClientStop] st).

(** The first [if] of [proccess_command]: maintenance of [current_line]. *)
Definition read_char (c : ascii) (st : controller) : option controller :=
  if Ascii.eqb c newline then
    if Nat.eqb (String.length (current_line st)) 0 then
      st <- respond st ;;
      Some (set_current_line EmptyString st)
    else Some (set_current_line EmptyString st)
  else if negb (Ascii.eqb c carriage_return) then
    Some (set_current_line (append_char (current_line st) c) st)
  else Some st.

(** The second [if] of [proccess_command]: the command dispatch. *)
Definition dispatch (r : readings) (st : controller) : option controller :=
  if endsWith (current_line st) "GET /trigger" then trigger_door r st
  else if endsWith (current_line st) "GET /refresh" then refresh r st
  else Some st.

Definition proccess_command (c : ascii) (r : readings) (st : controller)
    : option controller :=
  st <- read_char c st ;;
  dispatch r st.

(** The characters of one connection, each with the readings its call
    sees. *)
Fixpoint serve (input : list (ascii * readings)) (st : controller)
    : option controller :=
  match input with
  | [] => Some st
  | (c, r) :: rest =>
      st <- proccess_command c r st ;;
      serve rest st
  end.

(** Successive calls of [trigger_door]. *)
Fixpoint trigger_times (rs : list readings) (st : controller)
    : option controller :=
  match rs with
  | [] => Some st
  | r :: rest =>
      st <- trigger_door r st ;;
      trigger_times rest st
  end.


(** Whatever can change [door_status] after [setup]: the interrupt handler,
    the timeout of [loop], and the two things [proccess_command] dispatches
    to; [Receive] is a whole call of [proccess_command]. *)
Inductive operation : Type :=
  | Interrupt (r : readings)
  | Timeout (r : readings)
  | Refresh (r : readings)
  | Trigger (r : readings)
  | Receive (c : ascii) (r : readings).

Definition step (o : operation) (st : controller) : option controller :=
  match o with
  | Interrupt r => switch_interrupt r st
  | Timeout r => loop_timeout r st
  | Refresh r => refresh r st
  | Trigger r => trigger_door r st
  | Receive c r => proccess_command c r st
  end.

Fixpoint run (os : list operation) (st : controller) : option controller :=
  match os with
  | [] => Some st
  | o :: rest =>
      st <- step o st ;;
      run rest st
  end.

Definition readings_of (o : operation) : readings :=
  match o with
  | Interrupt r | Timeout r | Refresh r | Trigger r | Receive _ r => r
  end.

(** Switch interrupts served one after the other. *)
Fixpoint interrupts (rs : list readings) (st : controller)
    : option controller :=
  match rs with
  | [] => Some st
  | r :: rest =>
      st <- switch_interrupt r st ;;
      interrupts rest st
  end.

(** [trigger_door] with the switch interrupts that fire while it waits in
    [delay(1000)]: the handler runs between the write of HIGH and the write
    of LOW, and the statements after the pulse see what it left in
    [door_status] and [last_door_trigger]. *)
Definition trigger_door_preempted (during_pulse : list readings)
    (r : readings) (st : controller) : option controller :=
  if status_eqb (door_status st) stuck_status
     || status_eqb (door_status st) error_status
  then Some st
  else
    let st := emit [DigitalWrite trigger_door_pin true] st in
    st <- interrupts during_pulse st ;;
    let st := emit [Delay 1000; DigitalWrite trigger_door_pin false] st in
    let st := set_last_door_trigger (millis r) st in
    next <- next_door_status (door_status st) ;;
    Some (set_door_status next st).

End V1.

(** * Revision 2: the [/open] and [/close] commands *)

Module V2.

Inductive command_id : Type :=
  | refresh_command
  | open_command
  | close_command
  | invalid_command.

Definition command_code (c : command_id) : Z :=
  match c with
  | refresh_command => 0
  | open_command => 1
  | close_command => 2
  | invalid_command => 3
  end.

Definition command_eqb (a b : command_id) : bool :=
  command_code a =? command_code b.

(** The second field is [id] in the sketch; the name is taken here by the
    status table's rows. *)
Record command_table_entry : Type := mkCommand {
  command : option string;
  command_code_of : command_id
}.

(** Declared by the sketch; no function of the sketch reads it. *)
Definition command_table : list command_table_entry :=
  [ mkCommand (Some "refresh") refresh_command;
    mkCommand (Some "open") open_command;
    mkCommand (Some "close") close_command;
    mkCommand None invalid_command ].

(** Whether a text is one of the command strings of [command_table]. *)
Definition names_command (text : string) : bool :=
  existsb (fun e => match command e with
                    | Some s => String.eqb s text
                    | None => false
                    end) command_table.

Record door_status_table_entry : Type := mkEntry {
  id : door_status_id;
  open_switch_value : Z;
  closed_switch_value : Z;
  next_id_open : door_status_id;
  next_id_close : door_status_id;
  description : option string
}.

(** This table has no row for [cancelled_status]. The last row is
    [{ NULL }]. *)
Definition door_status_table : list door_status_table_entry :=
  [ mkEntry open_status    1 0 open_status    closing_status (Some "open");
    mkEntry closed_status  0 1 opening_status closed_status  (Some "closed");
    mkEntry error_status   1 1 error_status   error_status   (Some "reed_error");
    mkEntry stuck_status   0 0 stuck_status   stuck_status   (Some "stuck");
    mkEntry opening_status 0 0 opening_status opening_status (Some "opening");
    mkEntry closing_status 0 0 opening_status closing_status (Some "closing");
    mkEntry open_status    0 0 open_status    open_status    None ].

(** Lines 547-557 of [get_door_status], on the two sampled levels. *)
Definition door_status_of_switches (door_open door_closed : Z)
    (current : door_status_id) : option door_status_id :=
  if status_eqb current cancelled_status
     && (door_open =? 0) && (door_closed =? 0)
  then Some cancelled_status
  else
    scan_table description
      (fun p_entry =>
         if (door_open =? open_switch_value p_entry)
            && (door_closed =? closed_switch_value p_entry)
         then Some (id p_entry) else None)
      door_status_table.

(** Here [get_door_status] also resets the trigger timer, before the
    switches are read. *)
Definition get_door_status (r : readings) (st : controller)
    : option (door_status_id * controller) :=
  let st := set_last_door_trigger 0 st in
  let door_open := digitalRead switch_open_pin r in
  let door_closed := digitalRead switch_closed_pin r in
  s <- door_status_of_switches door_open door_closed (door_status st) ;;
  Some (s, st).

Definition door_status_string (current : door_status_id) : option string :=
  scan_table description
    (fun p_entry =>
       if status_eqb current (id p_entry) then description p_entry else None)
    door_status_table.

(** The scan of [next_door_status]: a row of the current status returns only
    for the open and the close command. *)
Definition table_next (command : command_id) (current : door_status_id)
    : option door_status_id :=
  scan_table description
    (fun p_entry =>
       if status_eqb current (id p_entry) then
         if command_eqb command open_command then Some (next_id_open p_entry)
         else if command_eqb command close_command
              then Some (next_id_close p_entry)
              else None
       else None)
    door_status_table.

(** After the loop: [return door_status;]. *)
Definition next_door_status (command : command_id) (current : door_status_id)
    : door_status_id :=
  match table_next command current with
  | Some next => next
  | None => current
  end.

Definition trigger_door (command : command_id) (r : readings)
    (st : controller) : controller :=
  let st := set_last_door_trigger (millis r) st in
  let current_status := door_status st in
  let st := set_door_status (next_door_status command (door_status st)) st in
  if status_eqb current_status (door_status st) then st
  else emit press_button st.

(** [door_status = get_door_status();] *)
Definition refresh (r : readings) (st : controller) : option controller :=
  p <- get_door_status r st ;;
  Some (set_door_status (fst p) (snd p)).

Definition switch_interrupt (r : readings) (st : controller)
    : option controller :=
  refresh r st.

(** The timeout test at the end of [loop]. *)
Definition loop_timeout (r : readings) (st : controller)
    : option controller :=
  if (0 <? last_door_trigger st)
     && (door_move_timeout <=? elapsed (millis r) (last_door_trigger st))
  then refresh r st
  else Some st.

Definition respond (st : controller) : option controller :=
  d <- door_status_string (door_status st) ;;
  Some (emit [ClientPrintln "HTTP/1.1 200 OK";
              ClientPrintln "Content-type:text/html";
              ClientPrintln EmptyString;
              ClientPrint d;
              Delay 100;
              ClientStop] st).

(** The first [if] of [proccess_command]: the command dispatch, on the line
    as the previous calls left it. *)
Definition dispatch (r : readings) (st : controller) : option controller :=
  if endsWith (current_line st) "GET /open"
  then Some (trigger_door open_command r st)
  else if endsWith (current_line st) "GET /close"
  then Some (trigger_door close_command r st)
  else if endsWith (current_line st) "GET /refresh" then refresh r st
  else Some st.

(** The second [if] of [proccess_command]: maintenance of [current_line]. *)
Definition read_char (c : ascii) (st : controller) : option controller :=
  if Ascii.eqb c newline then
    if Nat.eqb (String.length (current_line st)) 0 then
      st <- respond st ;;
      Some (set_current_line EmptyString st)
    else Some (set_current_line EmptyString st)
  else if negb (Ascii.eqb c carriage_return) then
    Some (set_current_line (append_char (current_line st) c) st)
  else Some st.

Definition proccess_command (c : ascii) (r : readings) (st : controller)
    : option controller :=
  st <- dispatch r st ;;
  read_char c st.

Fixpoint serve (input : list (ascii * readings)) (st : controller)
    : option controller :=
  match input with
  | [] => Some st
  | (c, r) :: rest =>
      st <- proccess_command c r st ;;
      serve rest st
  end.

(** Whatever can change [door_status] after [setup]: the interrupt handler,
    the timeout of [loop], and the three things [proccess_command] dispatches
    to; [Receive] is a whole call of [proccess_command]. *)
Inductive operation : Type :=
  | Interrupt (r : readings)
  | Timeout (r : readings)
  | Refresh (r : readings)
  | Open (r : readings)
  | Close (r : readings)
  | Receive (c : ascii) (r : readings).

Definition step (o : operation) (st : controller) : option controller :=
  match o with
  | Interrupt r => switch_interrupt r st
  | Timeout r => loop_timeout r st
  | Refresh r => refresh r st
  | Open r => Some (trigger_door open_command r st)
  | Close r => Some (trigger_door close_command r st)
  | Receive c r => proccess_command c r st
  end.

Fixpoint run (os : list operation) (st : controller) : option controller :=
  match os with
  | [] => Some st
  | o :: rest =>
      st <- step o st ;;
      run rest st
  end.

Definition readings_of (o : operation) : readings :=
  match o with
  | Interrupt r | Timeout r | Refresh r | Open r | Close r | Receive _ r => r
  end.

(** Switch interrupts served one after the other. *)
Fixpoint interrupts (rs : list readings) (st : controller)
    : option controller :=
  match rs with
  | [] => Some st
  | r :: rest =>
      st <- switch_interrupt r st ;;
      interrupts rest st
  end.

(** [trigger_door] with the switch interrupts that fire while it waits in
    [delay(1000)]: here the timer and the new status are stored before the
    pulse, and the handler runs between the write of HIGH and the write of
    LOW. *)
Definition trigger_door_preempted (command : command_id)
    (during_pulse : list readings) (r : readings) (st : controller)
    : option controller :=
  let st := set_last_door_trigger (millis r) st in
  let current_status := door_status st in
  let st := set_door_status (next_door_status command (door_status st)) st in
  if status_eqb current_status (door_status st) then Some st
  else
    let st := emit [DigitalWrite trigger_door_pin true] st in
    st <- interrupts during_pulse st ;;
    Some (emit [Delay 1000; DigitalWrite trigger_door_pin false] st).

End V2.

(** * Vocabulary of the statements *)

(** A reed switch level as [digitalRead] reports it. *)
Definition bit (z : Z) : Prop := z = 0 \/ z = 1.

(** Whether the actuator was pulsed between two states of the controller. *)
Definition pulsed (before after : controller) : bool :=
  negb (Nat.eqb (pulses after) (pulses before)).

(** The schedule the specification gives for successive triggers from Open:
    Open first, then Closing, Opening, Cancelled, Closing, ... *)
Definition trigger_schedule (n : nat) : door_status_id :=
  match n with
  | O => open_status
  | S k =>
      match (k mod 3)%nat with
      | 0%nat => closing_status
      | 1%nat => opening_status
      | _ => cancelled_status
      end
  end.

(** One turn of the loop Closing, Opening, Cancelled. *)
Definition turn (s : door_status_id) : door_status_id :=
  match s with
  | closing_status => opening_status
  | opening_status => cancelled_status
  | cancelled_status => closing_status
  | other => other
  end.

(** The row the scan of the resolver stops at for a sensor pair, as a
    search for the first row in table order. *)
Definition first_row_v1 (door_open door_closed : Z)
    : option V1.door_status_table_entry :=
  find (fun e => (door_open =? V1.open_switch_value e)
                 && (door_closed =? V1.closed_switch_value e))
       V1.door_status_table.

Definition first_row_v2 (door_open door_closed : Z)
    : option V2.door_status_table_entry :=
  find (fun e => (door_open =? V2.open_switch_value e)
                 && (door_closed =? V2.closed_switch_value e))
       V2.door_status_table.

(** The row of a status in the revision 2 table, as a search among the rows
    that carry a description. *)
Definition row_of_v2 (s : door_status_id) : option V2.door_status_table_entry :=
  find (fun e => status_eqb s (V2.id e))
       (filter (fun e => match V2.description e with
                         | Some _ => true
                         | None => false
                         end) V2.door_status_table).

(** The table's entry for a command: [next_id_open] or [next_id_close] of
    the row of the status. *)
Definition entry_for_v2 (command : V2.command_id) (s : door_status_id)
    : option door_status_id :=
  match command with
  | V2.open_command => option_map V2.next_id_open (row_of_v2 s)
  | V2.close_command => option_map V2.next_id_close (row_of_v2 s)
  | _ => None
  end.

(** What [read_char] (the same in both revisions) leaves in
    [current_line]. *)
Definition next_line (c : ascii) (line : string) : string :=
  if Ascii.eqb c newline then EmptyString
  else if negb (Ascii.eqb c carriage_return) then append_char line c
  else line.

Definition matches_v1 (line : string) : bool :=
  endsWith line "GET /trigger" || endsWith line "GET /refresh".

Definition matches_v2 (line : string) : bool :=
  endsWith line "GET /open" || endsWith line "GET /close"
  || endsWith line "GET /refresh".

(** No test of the dispatch succeeds while these characters are read,
    starting from [line]. Revision 1 tests the line after each character,
    revision 2 before each character. *)
Fixpoint never_matches_v1 (line : string) (cs : list ascii) : bool :=
  match cs with
  | [] => true
  | c :: rest =>
      negb (matches_v1 (next_line c line))
      && never_matches_v1 (next_line c line) rest
  end.

Fixpoint never_matches_v2 (line : string) (cs : list ascii) : bool :=
  match cs with
  | [] => true
  | c :: rest =>
      negb (matches_v2 line) && never_matches_v2 (next_line c line) rest
  end.

(** The characters of a request for a command text, every call of
    [proccess_command] seeing the readings [r]. *)
Definition request (text : string) (r : readings) : list (ascii * readings) :=
  map (fun c => (c, r)) (list_ascii_of_string (String.append "GET /" text)).

Definition readings_are_bits (r : readings) : Prop :=
  bit (switch_open r) /\ bit (switch_closed r).

(** What matters of a controller to the door: status, trigger timer and
    the number of actuator pulses. *)
Definition same_door (st st' : controller) : Prop :=
  door_status st' = door_status st
  /\ last_door_trigger st' = last_door_trigger st
  /\ pulses st' = pulses st.

(** The level of the actuator pin after a list of events, from the level
    [level] before them: the last [digitalWrite] to the pin decides. *)
Definition level_after (level : bool) (es : list event) : bool :=
  fold_left (fun l e => match e with
                        | DigitalWrite pin high =>
                            if pin =? trigger_door_pin then high else l
                        | _ => l
                        end) es level.

(** The level of the actuator pin, low at power-up. *)
Definition button_level (st : controller) : bool :=
  level_after false (emitted st).

(** The open and close commands among the operations of revision 2. *)
Definition is_command_v2 (o : V2.operation) : bool :=
  match o with
  | V2.Open _ | V2.Close _ => true
  | _ => false
  end.

(** How many pulses the commands of revision 2 can still cause from a
    status, the resolver not intervening. *)
Definition pulses_left_v2 (s : door_status_id) : nat :=
  match s with
  | open_status => 2
  | closed_status => 1
  | closing_status => 1
  | _ => 0
  end.

(** The timeout test at the end of [loop]. *)
Definition timeout_elapsed (r : readings) (st : controller) : bool :=
  (0 <? last_door_trigger st)
  && (door_move_timeout <=? elapsed (millis r) (last_door_trigger st)).

(** What an operation does to the controller besides the door status and
    the timer: it leaves the line buffer alone and appends events that, read
    from a low actuator pin, leave the pin low. *)
Definition appends_released (st st' : controller) : Prop :=
  exists es,
    emitted st' = (emitted st ++ es)%list /\ level_after false es = false.

(** The command string of a command of revision 2, as [command_table]
    lists them. *)
Definition command_text_v2 (command : V2.command_id) : string :=
  match command with
  | V2.refresh_command => "refresh"
  | V2.open_command => "open"
  | V2.close_command => "close"
  | V2.invalid_command => EmptyString
  end.

(** The line buffer after a list of characters, from [line]. *)
Definition line_after (line : string) (cs : list ascii) : string :=
  fold_left (fun l c => next_line c l) cs line.

(** What [proccess_command] sends for a status description [d] when an
    empty line ends: revision 1, then revision 2. *)
Definition status_response_v1 (d : string) : list event :=
  [ClientPrintln "HTTP/1.1 200 OK"; ClientPrintln "Content-type:text/html";
   ClientPrintln EmptyString; ClientPrint d; ClientPrintln EmptyString;
   ClientStop].

Definition status_response_v2 (d : string) : list event :=
  [ClientPrintln "HTTP/1.1 200 OK"; ClientPrintln "Content-type:text/html";
   ClientPrintln EmptyString; ClientPrint d; Delay 100; ClientStop].

(** An event of the audit log. *)
Definition is_log (e : event) : bool :=
  match e with
  | LogDoorStatus _ _ => true
  | _ => false
  end.

(** * Basic facts *)

Lemma status_eqb_eq (a b : door_status_id) : status_eqb a b = true <-> a = b.
Proof.
  split.
  - destruct a, b; intros H; try reflexivity; discriminate H.
  - intros ->. destruct b; reflexivity.
Qed.

Lemma status_eqb_neq (a b : door_status_id) : status_eqb a b = false <-> a <> b.
Proof.
  split.
  - intros H E. apply status_eqb_eq in E. congruence.
  - intros N. destruct (status_eqb a b) eqn:E; [|reflexivity].
    apply status_eqb_eq in E. contradiction.
Qed.

Lemma pulses_emit (es : list event) (st : controller) :
  pulses (emit es st)
  = (pulses st + List.length (filter is_button_high es))%nat.
Proof.
  unfold pulses, emit; simpl.
  now rewrite filter_app, length_app.
Qed.

Lemma pulsed_same (st : controller) : pulsed st st = false.
Proof. unfold pulsed. now rewrite Nat.eqb_refl. Qed.

Lemma pulsed_press (st st' : controller) :
  emitted st' = (emitted st ++ press_button)%list -> pulsed st st' = true.
Proof.
  intros E. unfold pulsed, pulses. rewrite E, filter_app, length_app.
  simpl. apply negb_true_iff, Nat.eqb_neq. lia.
Qed.

Lemma pulsed_quiet (st st' : controller) :
  pulses st' = pulses st -> pulsed st st' = false.
Proof. intros E. unfold pulsed. rewrite E. now rewrite Nat.eqb_refl. Qed.

(** * The Status Resolver *)

Lemma status_lookup_by_pair (previous : door_status_id) :
  (V1.door_status_of_switches 1 0 previous = Some open_status
   /\ V2.door_status_of_switches 1 0 previous = Some open_status)
  /\ (V1.door_status_of_switches 0 1 previous = Some closed_status
      /\ V2.door_status_of_switches 0 1 previous = Some closed_status)
  /\ (V1.door_status_of_switches 1 1 previous = Some error_status
      /\ V2.door_status_of_switches 1 1 previous = Some error_status)
  /\ (previous <> cancelled_status ->
      V1.door_status_of_switches 0 0 previous
        = option_map V1.id (first_row_v1 0 0)
      /\ V2.door_status_of_switches 0 0 previous
        = option_map V2.id (first_row_v2 0 0)
      /\ option_map V1.id (first_row_v1 0 0) = Some stuck_status
      /\ option_map V2.id (first_row_v2 0 0) = Some stuck_status).
Proof.
  repeat split; try (destruct previous; reflexivity);
    destruct previous; try reflexivity; contradiction.
Qed.

(** C1. [get_door_status] of either revision, reading the open switch and
    the closed switch of the hardware, answers by the pair of levels alone
    on (1,0), (0,1) and (1,1): Open, Closed and Error, whatever the
    controller's previous status and the rest of its state (revision 2 also
    clears the trigger timer). On (0,0) with a previous status other than
    Cancelled it answers the status of the first row of the table, in scan
    order, that expects (0,0), which is the Stuck row in both tables. A
    refresh stores that answer as the door status. *)
Theorem status_resolver_by_pair (r : readings) (st : controller) :
  (switch_open r = 1 -> switch_closed r = 0 ->
   V1.get_door_status r st = Some open_status
   /\ V2.get_door_status r st
      = Some (open_status, set_last_door_trigger 0 st)
   /\ option_map door_status (V1.refresh r st) = Some open_status
   /\ option_map door_status (V2.refresh r st) = Some open_status)
  /\ (switch_open r = 0 -> switch_closed r = 1 ->
      V1.get_door_status r st = Some closed_status
      /\ V2.get_door_status r st
         = Some (closed_status, set_last_door_trigger 0 st)
      /\ option_map door_status (V1.refresh r st) = Some closed_status
      /\ option_map door_status (V2.refresh r st) = Some closed_status)
  /\ (switch_open r = 1 -> switch_closed r = 1 ->
      V1.get_door_status r st = Some error_status
      /\ V2.get_door_status r st
         = Some (error_status, set_last_door_trigger 0 st)
      /\ option_map door_status (V1.refresh r st) = Some error_status
      /\ option_map door_status (V2.refresh r st) = Some error_status)
  /\ (switch_open r = 0 -> switch_closed r = 0 ->
      door_status st <> cancelled_status ->
      V1.get_door_status r st = option_map V1.id (first_row_v1 0 0)
      /\ option_map fst (V2.get_door_status r st)
         = option_map V2.id (first_row_v2 0 0)
      /\ option_map V1.id (first_row_v1 0 0) = Some stuck_status
      /\ option_map V2.id (first_row_v2 0 0) = Some stuck_status
      /\ V2.get_door_status r st
         = Some (stuck_status, set_last_door_trigger 0 st)
      /\ option_map door_status (V1.refresh r st) = Some stuck_status
      /\ option_map door_status (V2.refresh r st) = Some stuck_status).
Proof.
  destruct (status_lookup_by_pair (door_status st))
    as [[A1 A2] [[B1 B2] [[C1 C2] D]]].
  unfold V1.refresh, V2.refresh, V1.get_door_status, V2.get_door_status,
    digitalRead.
  cbn [Z.eqb switch_open_pin switch_closed_pin Pos.eqb door_status
       set_last_door_trigger].
  split; [|split; [|split]].
  - intros -> ->. rewrite A1, A2. repeat split.
  - intros -> ->. rewrite B1, B2. repeat split.
  - intros -> ->. rewrite C1, C2. repeat split.
  - intros -> -> N. destruct (D N) as [D1 [D2 [D3 D4]]].
    rewrite D1, D2, D3, D4. repeat split.
Qed.

Lemma status_resolver_by_pair_witness :
  V1.get_door_status (mkReadings 1 0 777)
    (mkController closing_status 500 "GET /" press_button) = Some open_status
  /\ V2.get_door_status (mkReadings 1 0 777)
       (mkController closing_status 500 "GET /" press_button)
     = Some (open_status, mkController closing_status 0 "GET /" press_button)
  /\ option_map door_status
       (V1.refresh (mkReadings 1 0 777)
          (mkController closing_status 500 "GET /" press_button))
     = Some open_status
  /\ option_map door_status
       (V2.refresh (mkReadings 1 0 777)
          (mkController closing_status 500 "GET /" press_button))
     = Some open_status.
Proof.
  apply (proj1 (status_resolver_by_pair (mkReadings 1 0 777)
                  (mkController closing_status 500 "GET /" press_button)));
    reflexivity.
Defined.

(** C2. When the status is Cancelled and both switches read 0, the resolver
    of either revision answers Cancelled, whatever the rest of the
    controller's state is, and a refresh leaves the status Cancelled. *)
Theorem cancelled_motion_kept (r : readings) (st : controller) :
  door_status st = cancelled_status ->
  switch_open r = 0 ->
  switch_closed r = 0 ->
  V1.get_door_status r st = Some cancelled_status
  /\ option_map fst (V2.get_door_status r st) = Some cancelled_status
  /\ option_map door_status (V1.refresh r st) = Some cancelled_status
  /\ option_map door_status (V2.refresh r st) = Some cancelled_status.
Proof.
  intros Hs Ho Hc. destruct r as [o c t], st as [s l line out].
  simpl in *. subst. repeat split; reflexivity.
Qed.

Lemma cancelled_motion_kept_witness :
  V1.get_door_status (mkReadings 0 0 7)
      (mkController cancelled_status 5 "GET /" []) = Some cancelled_status
  /\ option_map fst (V2.get_door_status (mkReadings 0 0 7)
      (mkController cancelled_status 5 "GET /" [])) = Some cancelled_status
  /\ option_map door_status (V1.refresh (mkReadings 0 0 7)
      (mkController cancelled_status 5 "GET /" [])) = Some cancelled_status
  /\ option_map door_status (V2.refresh (mkReadings 0 0 7)
      (mkController cancelled_status 5 "GET /" [])) = Some cancelled_status.
Proof.
  apply (cancelled_motion_kept (mkReadings 0 0 7)
           (mkController cancelled_status 5 "GET /" []));
    reflexivity.
Defined.

(** * The Trigger Engine, revision 1 *)

(** C3. In revision 1, [trigger_door] called while the status is Stuck or
    Error returns the controller as it was: same status, nothing written to
    the actuator pin, trigger timer untouched. *)
Theorem trigger_refused_when_faulted (r : readings) (st : controller) :
  door_status st = stuck_status \/ door_status st = error_status ->
  exists st',
    V1.trigger_door r st = Some st'
    /\ door_status st' = door_status st
    /\ emitted st' = emitted st
    /\ pulsed st st' = false
    /\ last_door_trigger st' = last_door_trigger st.
Proof.
  intros H. exists st. split.
  - unfold V1.trigger_door. destruct H as [-> | ->]; reflexivity.
  - repeat split. apply pulsed_same.
Qed.

Lemma trigger_refused_when_faulted_witness :
  exists st',
    V1.trigger_door (mkReadings 0 0 123456)
      (mkController error_status 0 EmptyString []) = Some st'
    /\ door_status st' = error_status
    /\ emitted st' = []
    /\ pulsed (mkController error_status 0 EmptyString []) st' = false
    /\ last_door_trigger st' = 0.
Proof.
  apply (trigger_refused_when_faulted (mkReadings 0 0 123456)
           (mkController error_status 0 EmptyString [])).
  right; reflexivity.
Defined.

Lemma trigger_door_moves (r : readings) (st : controller) :
  door_status st <> stuck_status ->
  door_status st <> error_status ->
  V1.trigger_door r st =
    (next <- V1.next_door_status (door_status st) ;;
     Some (mkController next (millis r) (current_line st)
             (emitted st ++ press_button))).
Proof.
  intros Hs He. unfold V1.trigger_door.
  apply status_eqb_neq in Hs, He. rewrite Hs, He. reflexivity.
Qed.

Lemma trigger_times_turns (rs : list readings) :
  forall st,
    door_status st = closing_status \/ door_status st = opening_status
    \/ door_status st = cancelled_status ->
    exists st',
      V1.trigger_times rs st = Some st'
      /\ door_status st' = Nat.iter (List.length rs) turn (door_status st).
Proof.
  induction rs as [|r rs IH]; intros st H.
  - exists st. split; reflexivity.
  - simpl V1.trigger_times. rewrite trigger_door_moves
      by (destruct H as [H|[H|H]]; rewrite H; discriminate).
    assert (E : V1.next_door_status (door_status st)
                = Some (turn (door_status st)))
      by (destruct H as [H|[H|H]]; rewrite H; reflexivity).
    rewrite E. cbn [bind].
    set (st1 := mkController _ _ _ _).
    destruct (IH st1) as [st' [R S']].
    { subst st1; simpl. destruct H as [H|[H|H]]; rewrite H; simpl; auto. }
    exists st'. split; [exact R|].
    rewrite S'. subst st1. cbn [door_status List.length].
    now rewrite Nat.iter_succ_r.
Qed.

Lemma turn_schedule (k : nat) :
  Nat.iter k turn closing_status = trigger_schedule (S k)
  /\ Nat.iter (S k) turn closing_status = trigger_schedule (S (S k))
  /\ Nat.iter (S (S k)) turn closing_status = trigger_schedule (S (S (S k))).
Proof.
  induction k as [|k [A [B C]]].
  - repeat split.
  - repeat split; [exact B|exact C|].
    change (Nat.iter (S (S (S k))) turn closing_status)
      with (turn (turn (turn (Nat.iter k turn closing_status)))).
    rewrite A. unfold trigger_schedule.
    replace (S (S (S k)) mod 3)%nat with (k mod 3)%nat.
    + assert (L : (k mod 3 < 3)%nat) by (apply Nat.mod_upper_bound; lia).
      destruct (k mod 3)%nat as [|[|[|m]]]; try reflexivity; lia.
    + change (S (S (S k))) with (3 + k)%nat.
      rewrite <- (Nat.Div0.mod_add k 1 3). f_equal. lia.
Qed.

(** C5. In revision 1, from status Open, [n] successive calls of
    [trigger_door] all return and leave the status at the [n]-th position of
    the schedule Open, Closing, Opening, Cancelled, Closing, ...; the rows
    of Error and Stuck name themselves as next status. *)
Theorem trigger_cycle_from_open (rs : list readings) (st : controller) :
  door_status st = open_status ->
  (exists st',
     V1.trigger_times rs st = Some st'
     /\ door_status st' = trigger_schedule (List.length rs))
  /\ map trigger_schedule [1%nat; 2%nat; 3%nat; 4%nat]
     = [closing_status; opening_status; cancelled_status; closing_status]
  /\ V1.next_door_status error_status = Some error_status
  /\ V1.next_door_status stuck_status = Some stuck_status.
Proof.
  intros H. repeat split.
  destruct rs as [|r rs].
  - exists st. split; [reflexivity|]. simpl. exact H.
  - simpl V1.trigger_times.
    rewrite trigger_door_moves by (rewrite H; discriminate).
    rewrite H. cbn [V1.next_door_status bind]. 
    change (V1.next_door_status open_status) with (Some closing_status).
    cbn [bind].
    set (st1 := mkController _ _ _ _).
    destruct (trigger_times_turns rs st1) as [st' [R S']].
    { left; reflexivity. }
    exists st'. split; [exact R|].
    rewrite S'. subst st1. cbn [door_status List.length].
    apply turn_schedule.
Qed.

Lemma trigger_cycle_from_open_witness :
  (exists st',
     V1.trigger_times
       [mkReadings 0 0 1000; mkReadings 0 0 3000; mkReadings 0 0 5000;
        mkReadings 0 0 7000; mkReadings 0 0 9000]
       (mkController open_status 0 EmptyString []) = Some st'
     /\ door_status st' = trigger_schedule 5)
  /\ map trigger_schedule [1%nat; 2%nat; 3%nat; 4%nat]
     = [closing_status; opening_status; cancelled_status; closing_status]
  /\ V1.next_door_status error_status = Some error_status
  /\ V1.next_door_status stuck_status = Some stuck_status.
Proof.
  apply (trigger_cycle_from_open
           [mkReadings 0 0 1000; mkReadings 0 0 3000; mkReadings 0 0 5000;
            mkReadings 0 0 7000; mkReadings 0 0 9000]
           (mkController open_status 0 EmptyString [])).
  reflexivity.
Defined.

(** * The Trigger Engine, revision 2 *)

Lemma trigger_door_v2_unfold (command : V2.command_id) (r : readings)
    (st : controller) :
  V2.trigger_door command r st =
    mkController (V2.next_door_status command (door_status st)) (millis r)
      (current_line st)
      (if status_eqb (door_status st)
            (V2.next_door_status command (door_status st))
       then emitted st else (emitted st ++ press_button)%list).
Proof.
  unfold V2.trigger_door; cbn.
  destruct (status_eqb _ _); reflexivity.
Qed.

Lemma pulsed_trigger_door_v2 (command : V2.command_id) (r : readings)
    (st : controller) :
  pulsed st (V2.trigger_door command r st)
  = negb (status_eqb (door_status st)
            (V2.next_door_status command (door_status st))).
Proof.
  rewrite trigger_door_v2_unfold.
  destruct (status_eqb _ _) eqn:E; cbn [negb].
  - apply pulsed_quiet. reflexivity.
  - apply pulsed_press. reflexivity.
Qed.

(** C4, as the claim states it, fails at the status Cancelled: the revision 2
    table has no row for it, so there is no [next_id_open] or
    [next_id_close] entry that the new status could be; [trigger_door]
    leaves the status Cancelled and does not pulse. *)
Lemma no_table_entry_for_cancelled_v2 :
  entry_for_v2 V2.open_command cancelled_status = None
  /\ entry_for_v2 V2.close_command cancelled_status = None
  /\ V2.trigger_door V2.open_command (mkReadings 0 0 1000)
       (mkController cancelled_status 0 EmptyString [])
     = mkController cancelled_status 1000 EmptyString []
  /\ V2.trigger_door V2.close_command (mkReadings 0 0 1000)
       (mkController cancelled_status 0 EmptyString [])
     = mkController cancelled_status 1000 EmptyString [].
Proof. repeat split. Qed.

(** C4, amended. In revision 2, for the open and the close command:
    from every status other than Cancelled the new status is the
    [next_id_open] / [next_id_close] field of the status's row; from
    Cancelled, which has no row, the status stays Cancelled; from every
    status the actuator is pulsed exactly when the new status differs from
    the previous one, and the trigger timer is set. In particular open from
    Open gives (Open, not pulsed), close from Open gives (Closing, pulsed),
    open from Closing gives (Opening, pulsed). *)
Theorem directional_trigger_contract (command : V2.command_id)
    (r : readings) (st : controller) :
  command = V2.open_command \/ command = V2.close_command ->
  (door_status st <> cancelled_status ->
     entry_for_v2 command (door_status st)
     = Some (door_status (V2.trigger_door command r st)))
  /\ (door_status st = cancelled_status ->
      door_status (V2.trigger_door command r st) = cancelled_status)
  /\ (pulsed st (V2.trigger_door command r st) = true
      <-> door_status (V2.trigger_door command r st) <> door_status st)
  /\ emitted (V2.trigger_door command r st)
     = (emitted st ++
        (if pulsed st (V2.trigger_door command r st) then press_button
         else []))%list
  /\ last_door_trigger (V2.trigger_door command r st) = millis r
  /\ (door_status st = open_status -> command = V2.open_command ->
      door_status (V2.trigger_door command r st) = open_status
      /\ pulsed st (V2.trigger_door command r st) = false)
  /\ (door_status st = open_status -> command = V2.close_command ->
      door_status (V2.trigger_door command r st) = closing_status
      /\ pulsed st (V2.trigger_door command r st) = true)
  /\ (door_status st = closing_status -> command = V2.open_command ->
      door_status (V2.trigger_door command r st) = opening_status
      /\ pulsed st (V2.trigger_door command r st) = true).
Proof.
  intros Hc. rewrite pulsed_trigger_door_v2, trigger_door_v2_unfold.
  cbn [door_status emitted last_door_trigger].
  destruct st as [s l line out]; cbn [door_status emitted].
  repeat split.
  - intros N. destruct Hc as [-> | ->]; destruct s;
      try reflexivity; contradiction.
  - intros ->. destruct Hc as [-> | ->]; reflexivity.
  - intros P E. apply negb_true_iff, status_eqb_neq in P. congruence.
  - intros N. apply negb_true_iff, status_eqb_neq. congruence.
  - destruct (status_eqb _ _); cbn [negb]; [now rewrite app_nil_r|reflexivity].
  - subst; reflexivity.
  - subst; reflexivity.
  - subst; reflexivity.
  - subst; reflexivity.
  - subst; reflexivity.
  - subst; reflexivity.
Qed.

Lemma directional_trigger_contract_witness :
  V2.trigger_door V2.open_command (mkReadings 0 0 4000)
    (mkController closing_status 0 "GET /open" [])
  = mkController opening_status 4000 "GET /open" press_button
  /\ entry_for_v2 V2.open_command closing_status = Some opening_status.
Proof.
  split; [reflexivity|].
  apply (proj1 (directional_trigger_contract V2.open_command
                  (mkReadings 0 0 4000)
                  (mkController closing_status 0 "GET /open" [])
                  (or_introl eq_refl))).
  discriminate.
Defined.

(** * Refresh *)

Lemma resolver_idempotent_v1 (door_open door_closed : Z)
    (s s1 : door_status_id) :
  V1.door_status_of_switches door_open door_closed s = Some s1 ->
  V1.door_status_of_switches door_open door_closed s1 = Some s1.
Proof.
  unfold V1.door_status_of_switches, scan_table; simpl.
  destruct s; cbn [status_eqb door_status_code Z.eqb andb];
    repeat match goal with
      | |- context [(?a =? ?b)] =>
          is_var a; destruct (a =? b) eqn:?; cbn [andb]
      end;
    intros E; inversion E; subst; try reflexivity; try discriminate;
    cbn; repeat match goal with H : _ = _ |- _ => rewrite H end;
    reflexivity.
Qed.

Lemma resolver_idempotent_v2 (door_open door_closed : Z)
    (s s1 : door_status_id) :
  V2.door_status_of_switches door_open door_closed s = Some s1 ->
  V2.door_status_of_switches door_open door_closed s1 = Some s1.
Proof.
  unfold V2.door_status_of_switches, scan_table; simpl.
  destruct s; cbn [status_eqb door_status_code Z.eqb andb];
    repeat match goal with
      | |- context [(?a =? ?b)] =>
          is_var a; destruct (a =? b) eqn:?; cbn [andb]
      end;
    intros E; inversion E; subst; try reflexivity; try discriminate;
    cbn; repeat match goal with H : _ = _ |- _ => rewrite H end;
    reflexivity.
Qed.

Lemma resolver_total_v1 (door_open door_closed : Z) (s : door_status_id) :
  bit door_open -> bit door_closed ->
  exists s1, V1.door_status_of_switches door_open door_closed s = Some s1.
Proof.
  intros [-> | ->] [-> | ->]; destruct s; eexists; reflexivity.
Qed.

Lemma resolver_total_v2 (door_open door_closed : Z) (s : door_status_id) :
  bit door_open -> bit door_closed ->
  exists s1, V2.door_status_of_switches door_open door_closed s = Some s1.
Proof.
  intros [-> | ->] [-> | ->]; destruct s; eexists; reflexivity.
Qed.

Lemma refresh_v1_result (r : readings) (st : controller) (s1 : door_status_id) :
  V1.door_status_of_switches (switch_open r) (switch_closed r) (door_status st)
  = Some s1 ->
  V1.refresh r st = Some (set_door_status s1 st).
Proof.
  intros E. unfold V1.refresh, V1.get_door_status, digitalRead; simpl.
  rewrite E. reflexivity.
Qed.

Lemma refresh_v2_result (r : readings) (st : controller) (s1 : door_status_id) :
  V2.door_status_of_switches (switch_open r) (switch_closed r) (door_status st)
  = Some s1 ->
  V2.refresh r st = Some (set_door_status s1 (set_last_door_trigger 0 st)).
Proof.
  intros E. unfold V2.refresh, V2.get_door_status, digitalRead; simpl.
  rewrite E. reflexivity.
Qed.

(** C7. In either revision, with both switches reading 0 or 1, a refresh
    returns, writes nothing to the actuator pin, and a second refresh under
    the same readings returns the controller the first one produced; on the
    resolver alone, resolving again from the resolved status gives that
    status. *)
Theorem refresh_idempotent (r : readings) (st : controller) :
  readings_are_bits r ->
  (exists st1,
     V1.refresh r st = Some st1
     /\ V1.refresh r st1 = Some st1
     /\ emitted st1 = emitted st
     /\ pulsed st st1 = false)
  /\ (exists st2,
        V2.refresh r st = Some st2
        /\ V2.refresh r st2 = Some st2
        /\ emitted st2 = emitted st
        /\ pulsed st st2 = false)
  /\ (exists s1,
        V1.door_status_of_switches (switch_open r) (switch_closed r)
          (door_status st) = Some s1
        /\ V1.door_status_of_switches (switch_open r) (switch_closed r) s1
           = Some s1)
  /\ (exists s2,
        V2.door_status_of_switches (switch_open r) (switch_closed r)
          (door_status st) = Some s2
        /\ V2.door_status_of_switches (switch_open r) (switch_closed r) s2
           = Some s2).
Proof.
  intros [Ho Hc].
  destruct (resolver_total_v1 _ _ (door_status st) Ho Hc) as [s1 E1].
  destruct (resolver_total_v2 _ _ (door_status st) Ho Hc) as [s2 E2].
  pose proof (resolver_idempotent_v1 _ _ _ _ E1) as I1.
  pose proof (resolver_idempotent_v2 _ _ _ _ E2) as I2.
  split; [|split; [|split]].
  - exists (set_door_status s1 st). split; [now apply refresh_v1_result|].
    split; [|split; [reflexivity|now apply pulsed_quiet]].
    now rewrite (refresh_v1_result r _ s1).
  - exists (set_door_status s2 (set_last_door_trigger 0 st)).
    split; [now apply refresh_v2_result|].
    split; [|split; [reflexivity|now apply pulsed_quiet]].
    now rewrite (refresh_v2_result r _ s2).
  - exists s1. now split.
  - exists s2. now split.
Qed.

Lemma refresh_idempotent_witness :
  exists st1,
    V1.refresh (mkReadings 0 0 25000)
      (mkController closing_status 3000 EmptyString press_button) = Some st1
    /\ V1.refresh (mkReadings 0 0 25000) st1 = Some st1
    /\ emitted st1 = press_button
    /\ pulsed (mkController closing_status 3000 EmptyString press_button) st1
       = false.
Proof.
  apply (proj1 (refresh_idempotent (mkReadings 0 0 25000)
                  (mkController closing_status 3000 EmptyString press_button)
                  (conj (or_introl eq_refl) (or_introl eq_refl)))).
Defined.

(** * Status descriptions *)

(** C8, as the claim states it, fails in revision 2 at the status
    Cancelled: the scan of [door_status_string] reaches the sentinel without
    having found a row, and the function returns no value. *)
Lemma cancelled_has_no_description_v2 :
  V2.door_status_string cancelled_status = None
  /\ V1.door_status_string cancelled_status = Some "cancelled".
Proof. split; reflexivity. Qed.

(** C8, amended. In revision 1 every one of the seven statuses has exactly
    one description, which is not empty and is the description of no other
    status. In revision 2 the same holds for the six statuses other than
    Cancelled, with the same strings as in revision 1. *)
Theorem description_lookup (s : door_status_id) :
  (exists d,
     V1.door_status_string s = Some d
     /\ d <> EmptyString
     /\ forall s', V1.door_status_string s' = Some d -> s' = s)
  /\ (s <> cancelled_status ->
      exists d,
        V2.door_status_string s = Some d
        /\ d <> EmptyString
        /\ V1.door_status_string s = Some d
        /\ forall s', V2.door_status_string s' = Some d -> s' = s).
Proof.
  split.
  - destruct s; eexists; (split; [reflexivity|]); (split; [discriminate|]);
      intros s' E; destruct s'; try reflexivity; discriminate E.
  - intros N. destruct s; try contradiction; eexists;
      (split; [reflexivity|]); (split; [discriminate|]);
      (split; [reflexivity|]);
      intros s' E; destruct s'; try reflexivity; discriminate E.
Qed.

Lemma description_lookup_witness :
  exists d,
    V2.door_status_string error_status = Some d
    /\ d <> EmptyString
    /\ V1.door_status_string error_status = Some d
    /\ forall s', V2.door_status_string s' = Some d -> s' = error_status.
Proof.
  apply (proj2 (description_lookup error_status)).
  discriminate.
Defined.

(** * Command processing *)

Lemma door_status_string_total_v1 (s : door_status_id) :
  exists d, V1.door_status_string s = Some d.
Proof. destruct s; eexists; reflexivity. Qed.

Lemma door_status_string_total_v2 (s : door_status_id) :
  s <> cancelled_status -> exists d, V2.door_status_string s = Some d.
Proof. intros N; destruct s; try contradiction; eexists; reflexivity. Qed.

Lemma same_door_refl (st : controller) : same_door st st.
Proof. repeat split. Qed.

Lemma same_door_trans (a b c : controller) :
  same_door a b -> same_door b c -> same_door a c.
Proof.
  unfold same_door; intros [A1 [A2 A3]] [B1 [B2 B3]].
  repeat split; congruence.
Qed.

Lemma read_char_v1_keeps_door (c : ascii) (st : controller) :
  exists st',
    V1.read_char c st = Some st'
    /\ same_door st st'
    /\ current_line st' = next_line c (current_line st).
Proof.
  unfold V1.read_char, next_line.
  destruct (Ascii.eqb c newline).
  - destruct (Nat.eqb _ 0).
    + unfold V1.respond.
      destruct (door_status_string_total_v1 (door_status st)) as [d ->].
      cbn [bind]. eexists; split; [reflexivity|].
      split; [|reflexivity]. repeat split. cbn.
      unfold pulses; cbn. rewrite filter_app; cbn. now rewrite app_nil_r.
    + eexists; split; [reflexivity|]. split; [repeat split|reflexivity].
  - destruct (negb _).
    + eexists; split; [reflexivity|]. split; [repeat split|reflexivity].
    + eexists; split; [reflexivity|]. split; [repeat split|reflexivity].
Qed.

Lemma read_char_v2_keeps_door (c : ascii) (st : controller) :
  door_status st <> cancelled_status ->
  exists st',
    V2.read_char c st = Some st'
    /\ same_door st st'
    /\ current_line st' = next_line c (current_line st).
Proof.
  intros N. unfold V2.read_char, next_line.
  destruct (Ascii.eqb c newline).
  - destruct (Nat.eqb _ 0).
    + unfold V2.respond.
      destruct (door_status_string_total_v2 (door_status st) N) as [d ->].
      cbn [bind]. eexists; split; [reflexivity|].
      split; [|reflexivity]. repeat split. cbn.
      unfold pulses; cbn. rewrite filter_app; cbn. now rewrite app_nil_r.
    + eexists; split; [reflexivity|]. split; [repeat split|reflexivity].
  - destruct (negb _).
    + eexists; split; [reflexivity|]. split; [repeat split|reflexivity].
    + eexists; split; [reflexivity|]. split; [repeat split|reflexivity].
Qed.

Lemma dispatch_v1_unmatched (r : readings) (st : controller) :
  matches_v1 (current_line st) = false -> V1.dispatch r st = Some st.
Proof.
  unfold matches_v1, V1.dispatch. intros H.
  apply orb_false_iff in H as [-> ->]. reflexivity.
Qed.

Lemma dispatch_v2_unmatched (r : readings) (st : controller) :
  matches_v2 (current_line st) = false -> V2.dispatch r st = Some st.
Proof.
  unfold matches_v2, V2.dispatch. intros H.
  apply orb_false_iff in H as [H ->].
  apply orb_false_iff in H as [-> ->]. reflexivity.
Qed.

Lemma serve_v1_unmatched (input : list (ascii * readings)) :
  forall st,
    never_matches_v1 (current_line st) (map fst input) = true ->
    exists st', V1.serve input st = Some st' /\ same_door st st'.
Proof.
  induction input as [|[c r] input IH]; intros st H.
  - exists st. split; [reflexivity|apply same_door_refl].
  - cbn [map fst never_matches_v1] in H.
    apply andb_true_iff in H as [H1 H2]. apply negb_true_iff in H1.
    destruct (read_char_v1_keeps_door c st) as [st1 [R [D L]]].
    rewrite <- L in H1, H2.
    destruct (IH st1 H2) as [st' [S' D']].
    exists st'. split; [|eapply same_door_trans; eassumption].
    cbn [V1.serve]. unfold V1.proccess_command. rewrite R. cbn [bind].
    rewrite (dispatch_v1_unmatched r st1 H1). cbn [bind]. exact S'.
Qed.

Lemma serve_v2_unmatched (input : list (ascii * readings)) :
  forall st,
    door_status st <> cancelled_status ->
    never_matches_v2 (current_line st) (map fst input) = true ->
    exists st', V2.serve input st = Some st' /\ same_door st st'.
Proof.
  induction input as [|[c r] input IH]; intros st N H.
  - exists st. split; [reflexivity|apply same_door_refl].
  - cbn [map fst never_matches_v2] in H.
    apply andb_true_iff in H as [H1 H2]. apply negb_true_iff in H1.
    destruct (read_char_v2_keeps_door c st N) as [st1 [R [D L]]].
    rewrite <- L in H2.
    assert (N1 : door_status st1 <> cancelled_status)
      by (destruct D as [D _]; congruence).
    destruct (IH st1 N1 H2) as [st' [S' D']].
    exists st'. split; [|eapply same_door_trans; eassumption].
    cbn [V2.serve]. unfold V2.proccess_command.
    rewrite (dispatch_v2_unmatched r st H1). cbn [bind].
    rewrite R. cbn [bind]. exact S'.
Qed.

(** C6, as the claim states it, fails in both revisions: the sketch tests
    whether the line read so far ends with the request of a command, so a
    text that only begins with a command name is acted on. In revision 1
    the text "triggers", which is not a command string of the command
    table, pulses the actuator and moves an Open door to Closing; in
    revision 2 the text "opens" pulses it and moves a Closed door to
    Opening. *)
Lemma longer_text_is_acted_on :
  V1.names_command "triggers" = false
  /\ V1.serve (request "triggers" (mkReadings 1 0 5000))
       (mkController open_status 0 EmptyString [])
     = Some (mkController closing_status 5000 "GET /triggers" press_button)
  /\ V2.names_command "opens" = false
  /\ V2.serve (request "opens" (mkReadings 0 1 5000))
       (mkController closed_status 0 EmptyString [])
     = Some (mkController opening_status 5000 "GET /opens" press_button).
Proof. repeat split. Qed.

(** C6, amended. In either revision, characters during whose reading the
    line never ends with the request of a command ("GET /trigger" and
    "GET /refresh" in revision 1; "GET /open", "GET /close" and
    "GET /refresh" in revision 2, where the status is not Cancelled) are
    all processed, and leave the door status and the trigger timer as they
    were and the actuator not pulsed. The line buffer and what is sent to
    the client do change. *)
Theorem unmatched_input_is_noop (input : list (ascii * readings))
    (st : controller) :
  (never_matches_v1 (current_line st) (map fst input) = true ->
   exists st',
     V1.serve input st = Some st'
     /\ door_status st' = door_status st
     /\ last_door_trigger st' = last_door_trigger st
     /\ pulsed st st' = false)
  /\ (never_matches_v2 (current_line st) (map fst input) = true ->
      door_status st <> cancelled_status ->
      exists st',
        V2.serve input st = Some st'
        /\ door_status st' = door_status st
        /\ last_door_trigger st' = last_door_trigger st
        /\ pulsed st st' = false).
Proof.
  split.
  - intros H. destruct (serve_v1_unmatched input st H) as [st' [S' [A [B C]]]].
    exists st'. repeat split; try assumption. now apply pulsed_quiet.
  - intros H N.
    destruct (serve_v2_unmatched input st N H) as [st' [S' [A [B C]]]].
    exists st'. repeat split; try assumption. now apply pulsed_quiet.
Qed.

Lemma unmatched_input_is_noop_witness :
  exists st',
    V1.serve (request "status" (mkReadings 1 0 5000))
      (mkController closing_status 3000 EmptyString press_button) = Some st'
    /\ door_status st' = closing_status
    /\ last_door_trigger st' = 3000
    /\ pulsed (mkController closing_status 3000 EmptyString press_button) st'
       = false.
Proof.
  apply (proj1 (unmatched_input_is_noop
                  (request "status" (mkReadings 1 0 5000))
                  (mkController closing_status 3000 EmptyString press_button))).
  reflexivity.
Defined.

(** * Reaching Cancelled *)

Lemma resolver_v1_cancelled (door_open door_closed : Z) (s : door_status_id) :
  V1.door_status_of_switches door_open door_closed s = Some cancelled_status ->
  s = cancelled_status.
Proof.
  unfold V1.door_status_of_switches, scan_table; simpl.
  destruct s; try reflexivity;
    cbn [status_eqb door_status_code Z.eqb andb];
    repeat match goal with
      | |- context [(?a =? ?b)] =>
          is_var a; destruct (a =? b) eqn:?; cbn [andb]
      end;
    intros E; discriminate E.
Qed.

Lemma resolver_v2_cancelled (door_open door_closed : Z) (s : door_status_id) :
  V2.door_status_of_switches door_open door_closed s = Some cancelled_status ->
  s = cancelled_status.
Proof.
  unfold V2.door_status_of_switches, scan_table; simpl.
  destruct s; try reflexivity;
    cbn [status_eqb door_status_code Z.eqb andb];
    repeat match goal with
      | |- context [(?a =? ?b)] =>
          is_var a; destruct (a =? b) eqn:?; cbn [andb]
      end;
    intros E; discriminate E.
Qed.

Lemma refresh_v1_cancelled (r : readings) (st st' : controller) :
  V1.refresh r st = Some st' ->
  door_status st' = cancelled_status ->
  door_status st = cancelled_status.
Proof.
  unfold V1.refresh, V1.get_door_status.
  destruct (V1.door_status_of_switches _ _ _) as [s|] eqn:E; cbn [bind];
    [|discriminate].
  intros [= <-]; cbn. intros ->.
  now apply resolver_v1_cancelled in E.
Qed.

Lemma refresh_v2_cancelled (r : readings) (st st' : controller) :
  V2.refresh r st = Some st' ->
  door_status st' = cancelled_status ->
  door_status st = cancelled_status.
Proof.
  unfold V2.refresh, V2.get_door_status. cbn [door_status set_last_door_trigger].
  destruct (V2.door_status_of_switches _ _ _) as [s|] eqn:E; cbn [bind];
    [|discriminate].
  intros [= <-]; cbn. intros ->.
  now apply resolver_v2_cancelled in E.
Qed.

Lemma trigger_door_v1_cancelled (r : readings) (st st' : controller) :
  V1.trigger_door r st = Some st' ->
  door_status st' = cancelled_status ->
  door_status st <> cancelled_status ->
  door_status st = opening_status.
Proof.
  destruct st as [s l line out]. unfold V1.trigger_door; cbn.
  destruct s; cbn; intros [= <-]; cbn; intros E N;
    try reflexivity; try discriminate E; contradiction.
Qed.

Lemma trigger_door_v1_from_opening (r : readings) (st : controller) :
  door_status st = opening_status ->
  exists st',
    V1.trigger_door r st = Some st'
    /\ door_status st' = cancelled_status
    /\ pulsed st st' = true.
Proof.
  intros H. rewrite trigger_door_moves by (rewrite H; discriminate).
  rewrite H. eexists. split; [reflexivity|]. split; [reflexivity|].
  now apply pulsed_press.
Qed.

Lemma trigger_door_v2_not_cancelled (command : V2.command_id) (r : readings)
    (st : controller) :
  door_status st <> cancelled_status ->
  door_status (V2.trigger_door command r st) <> cancelled_status.
Proof.
  rewrite trigger_door_v2_unfold. cbn [door_status].
  destruct (door_status st), command; intros N; try contradiction;
    discriminate.
Qed.

Lemma step_v1_cancelled (o : V1.operation) (st st' : controller) :
  door_status st <> cancelled_status ->
  V1.step o st = Some st' ->
  door_status st' = cancelled_status ->
  door_status st = opening_status
  /\ exists r st0,
       door_status st0 = opening_status
       /\ V1.trigger_door r st0 = Some st'.
Proof.
  intros N S C. destruct o as [r|r|r|r|c r]; cbn [V1.step] in S.
  - (* switch_interrupt *)
    unfold V1.switch_interrupt in S.
    destruct (V1.refresh r st) as [st1|] eqn:R; cbn [bind] in S;
      [|discriminate].
    unfold V1.log_door_status in S.
    destruct (V1.door_status_string _); cbn [bind] in S; [|discriminate].
    injection S as <-. cbn in C.
    exfalso. apply N. eapply refresh_v1_cancelled; eassumption.
  - (* loop_timeout *)
    unfold V1.loop_timeout in S. destruct (_ && _).
    + exfalso. apply N. eapply refresh_v1_cancelled; eassumption.
    + injection S as <-. contradiction.
  - exfalso. apply N. eapply refresh_v1_cancelled; eassumption.
  - pose proof (trigger_door_v1_cancelled _ _ _ S C N) as O.
    split; [exact O|]. exists r, st. now split.
  - (* proccess_command *)
    unfold V1.proccess_command in S.
    destruct (read_char_v1_keeps_door c st) as [st1 [R [[D _] _]]].
    rewrite R in S; cbn [bind] in S.
    assert (N1 : door_status st1 <> cancelled_status) by congruence.
    unfold V1.dispatch in S.
    destruct (endsWith _ "GET /trigger").
    + pose proof (trigger_door_v1_cancelled _ _ _ S C N1) as O.
      split; [congruence|]. exists r, st1. now split.
    + destruct (endsWith _ "GET /refresh").
      * exfalso. apply N1. eapply refresh_v1_cancelled; eassumption.
      * injection S as <-. contradiction.
Qed.

Lemma dispatch_v2_not_cancelled (r : readings) (st st1 : controller) :
  door_status st <> cancelled_status ->
  V2.dispatch r st = Some st1 ->
  door_status st1 <> cancelled_status.
Proof.
  intros N D. unfold V2.dispatch in D.
  destruct (endsWith _ "GET /open").
  { injection D as <-. now apply trigger_door_v2_not_cancelled. }
  destruct (endsWith _ "GET /close").
  { injection D as <-. now apply trigger_door_v2_not_cancelled. }
  destruct (endsWith _ "GET /refresh").
  { intros C1. apply N. eapply refresh_v2_cancelled; eassumption. }
  injection D as <-. exact N.
Qed.

Lemma step_v2_not_cancelled (o : V2.operation) (st st' : controller) :
  door_status st <> cancelled_status ->
  V2.step o st = Some st' ->
  door_status st' <> cancelled_status.
Proof.
  intros N S C. destruct o as [r|r|r|r|r|c r]; cbn [V2.step] in S.
  - apply N. eapply refresh_v2_cancelled; eassumption.
  - unfold V2.loop_timeout in S. destruct (_ && _).
    + apply N. eapply refresh_v2_cancelled; eassumption.
    + injection S as <-. contradiction.
  - apply N. eapply refresh_v2_cancelled; eassumption.
  - injection S as <-. revert C. now apply trigger_door_v2_not_cancelled.
  - injection S as <-. revert C. now apply trigger_door_v2_not_cancelled.
  - unfold V2.proccess_command in S.
    destruct (V2.dispatch r st) as [st1|] eqn:D; cbn [bind] in S;
      [|discriminate].
    pose proof (dispatch_v2_not_cancelled r st st1 N D) as N1.
    destruct (read_char_v2_keeps_door c st1 N1) as [st2 [R [[E _] _]]].
    rewrite R in S. injection S as <-. congruence.
Qed.

Lemma refresh_v2_total (r : readings) (st : controller) :
  readings_are_bits r -> exists st', V2.refresh r st = Some st'.
Proof.
  intros [Ho Hc].
  destruct (resolver_total_v2 _ _ (door_status st) Ho Hc) as [s E].
  eexists. eapply refresh_v2_result. exact E.
Qed.

Lemma step_v2_total (o : V2.operation) (st : controller) :
  door_status st <> cancelled_status ->
  readings_are_bits (V2.readings_of o) ->
  exists st', V2.step o st = Some st'.
Proof.
  intros N B. destruct o as [r|r|r|r|r|c r]; cbn [V2.step V2.readings_of] in *.
  - now apply refresh_v2_total.
  - unfold V2.loop_timeout. destruct (_ && _);
      [now apply refresh_v2_total|now eexists].
  - now apply refresh_v2_total.
  - now eexists.
  - now eexists.
  - assert (D : exists st1, V2.dispatch r st = Some st1).
    { unfold V2.dispatch.
      destruct (endsWith _ "GET /open"); [now eexists|].
      destruct (endsWith _ "GET /close"); [now eexists|].
      destruct (endsWith _ "GET /refresh");
        [now apply refresh_v2_total|now eexists]. }
    destruct D as [st1 D].
    pose proof (dispatch_v2_not_cancelled r st st1 N D) as N1.
    destruct (read_char_v2_keeps_door c st1 N1) as [st2 [R _]].
    exists st2. unfold V2.proccess_command. rewrite D. exact R.
Qed.

Lemma run_v2_not_cancelled (os : list V2.operation) :
  forall st st',
    door_status st <> cancelled_status ->
    V2.run os st = Some st' ->
    door_status st' <> cancelled_status.
Proof.
  induction os as [|o os IH]; intros st st' N R; cbn [V2.run] in R.
  - injection R as <-. exact N.
  - destruct (V2.step o st) as [st1|] eqn:S; cbn [bind] in R; [|discriminate].
    apply (IH st1 st'); [|exact R].
    eapply step_v2_not_cancelled; eassumption.
Qed.

Lemma run_v2_total (os : list V2.operation) :
  forall st,
    door_status st <> cancelled_status ->
    Forall (fun o => readings_are_bits (V2.readings_of o)) os ->
    exists st', V2.run os st = Some st'.
Proof.
  induction os as [|o os IH]; intros st N B; cbn [V2.run].
  - now eexists.
  - inversion B as [|? ? Bo Bos]; subst.
    destruct (step_v2_total o st N Bo) as [st1 S].
    rewrite S; cbn [bind]. apply IH; [|exact Bos].
    eapply step_v2_not_cancelled; eassumption.
Qed.

(** C9, as the claim states it, fails in revision 2: the close command
    received while the status is Opening leaves the status Opening, and
    does not pulse; the Opening row names Opening for both commands. *)
Lemma close_while_opening_stays_opening_v2 :
  V2.trigger_door V2.close_command (mkReadings 0 0 9000)
    (mkController opening_status 4000 EmptyString press_button)
  = mkController opening_status 9000 EmptyString press_button
  /\ V2.next_door_status V2.close_command opening_status = opening_status
  /\ V2.next_door_status V2.open_command opening_status = opening_status.
Proof. repeat split. Qed.

(** C10. In revision 2 no row of the table has Cancelled as its status or
    as the next status of either command, the resolver answers Cancelled
    only when the previous status is Cancelled, and Cancelled has no
    description; so from a status other than Cancelled every sequence of
    operations (interrupt, timeout, refresh, open, close, a character
    received) that returns leaves a status other than Cancelled, and every
    such sequence returns when the switches read 0 or 1. *)
Theorem cancelled_unreachable_v2 (os : list V2.operation) (st : controller) :
  door_status st <> cancelled_status ->
  (forall st', V2.run os st = Some st' -> door_status st' <> cancelled_status)
  /\ (Forall (fun o => readings_are_bits (V2.readings_of o)) os ->
      exists st',
        V2.run os st = Some st' /\ door_status st' <> cancelled_status)
  /\ Forall (fun e => V2.id e <> cancelled_status
                      /\ V2.next_id_open e <> cancelled_status
                      /\ V2.next_id_close e <> cancelled_status)
       V2.door_status_table
  /\ (forall door_open door_closed s,
        V2.door_status_of_switches door_open door_closed s
        = Some cancelled_status -> s = cancelled_status)
  /\ V2.door_status_string cancelled_status = None.
Proof.
  intros N. split; [|split; [|split; [|split]]].
  - intros st'. now apply run_v2_not_cancelled.
  - intros B. destruct (run_v2_total os st N B) as [st' R].
    exists st'. split; [exact R|]. eapply run_v2_not_cancelled; eassumption.
  - repeat constructor; discriminate.
  - apply resolver_v2_cancelled.
  - reflexivity.
Qed.

Lemma cancelled_unreachable_v2_witness :
  exists st',
    V2.run [V2.Open (mkReadings 0 1 1000); V2.Interrupt (mkReadings 1 0 9000);
            V2.Close (mkReadings 1 0 20000); V2.Timeout (mkReadings 0 0 45000);
            V2.Receive newline (mkReadings 0 0 46000)]
      (mkController closed_status 0 EmptyString []) = Some st'
    /\ door_status st' <> cancelled_status.
Proof.
  refine (proj1 (proj2 (cancelled_unreachable_v2
            [V2.Open (mkReadings 0 1 1000); V2.Interrupt (mkReadings 1 0 9000);
             V2.Close (mkReadings 1 0 20000);
             V2.Timeout (mkReadings 0 0 45000);
             V2.Receive newline (mkReadings 0 0 46000)]
            (mkController closed_status 0 EmptyString []) _)) _).
  - discriminate.
  - repeat (apply Forall_cons; [split; cbn; unfold bit; auto|]).
    apply Forall_nil.
Defined.

(** * Further properties of the resolver *)

Lemma resolver_v1_out_of_range (door_open door_closed : Z)
    (s : door_status_id) :
  ~ (bit door_open /\ bit door_closed) ->
  V1.door_status_of_switches door_open door_closed s = None.
Proof.
  intros H. unfold V1.door_status_of_switches, scan_table; simpl.
  destruct (door_open =? 0) eqn:O0; destruct (door_open =? 1) eqn:O1;
    destruct (door_closed =? 0) eqn:C0; destruct (door_closed =? 1) eqn:C1;
    try reflexivity;
    repeat match goal with
      | E : (_ =? _) = true |- _ => apply Z.eqb_eq in E
      end;
    try lia; try (now rewrite andb_false_r);
    exfalso; apply H; unfold bit; lia.
Qed.

Lemma resolver_v2_out_of_range (door_open door_closed : Z)
    (s : door_status_id) :
  ~ (bit door_open /\ bit door_closed) ->
  V2.door_status_of_switches door_open door_closed s = None.
Proof.
  intros H. unfold V2.door_status_of_switches, scan_table; simpl.
  destruct (door_open =? 0) eqn:O0; destruct (door_open =? 1) eqn:O1;
    destruct (door_closed =? 0) eqn:C0; destruct (door_closed =? 1) eqn:C1;
    try reflexivity;
    repeat match goal with
      | E : (_ =? _) = true |- _ => apply Z.eqb_eq in E
      end;
    try lia; try (now rewrite andb_false_r);
    exfalso; apply H; unfold bit; lia.
Qed.

Lemma bit_dec (z : Z) : {bit z} + {~ bit z}.
Proof.
  destruct (Z.eq_dec z 0) as [->|N0]; [left; now left|].
  destruct (Z.eq_dec z 1) as [->|N1]; [left; now right|].
  right. intros [E|E]; contradiction.
Qed.

(** X1. The lookup of [get_door_status] returns a status exactly when both
    sampled levels are 0 or 1; on any other pair of integers the scan
    reaches the sentinel and the function ends without a return value. The
    same holds in both revisions and for every current status. *)
Theorem resolver_defined_iff_bits (door_open door_closed : Z)
    (s : door_status_id) :
  ((exists s1,
      V1.door_status_of_switches door_open door_closed s = Some s1)
   <-> bit door_open /\ bit door_closed)
  /\ ((exists s2,
         V2.door_status_of_switches door_open door_closed s = Some s2)
      <-> bit door_open /\ bit door_closed)
  /\ (V1.door_status_of_switches door_open door_closed s = None
      <-> ~ (bit door_open /\ bit door_closed))
  /\ (V2.door_status_of_switches door_open door_closed s = None
      <-> ~ (bit door_open /\ bit door_closed)).
Proof.
  assert (D : {bit door_open /\ bit door_closed}
              + {~ (bit door_open /\ bit door_closed)}).
  { destruct (bit_dec door_open), (bit_dec door_closed); tauto. }
  destruct D as [[Ho Hc]|N].
  - destruct (resolver_total_v1 _ _ s Ho Hc) as [s1 E1].
    destruct (resolver_total_v2 _ _ s Ho Hc) as [s2 E2].
    rewrite E1, E2.
    split; [|split; [|split]]; split.
    + intros _. now split.
    + intros _. now exists s1.
    + intros _. now split.
    + intros _. now exists s2.
    + intros E. discriminate E.
    + intros N. exfalso. apply N. now split.
    + intros E. discriminate E.
    + intros N. exfalso. apply N. now split.
  - rewrite (resolver_v1_out_of_range _ _ s N).
    rewrite (resolver_v2_out_of_range _ _ s N).
    split; [|split; [|split]]; split.
    + intros [? E]. discriminate E.
    + intros B. exfalso. exact (N B).
    + intros [? E]. discriminate E.
    + intros B. exfalso. exact (N B).
    + intros _. exact N.
    + reflexivity.
    + intros _. exact N.
    + reflexivity.
Qed.

Lemma resolver_defined_iff_bits_witness :
  V1.door_status_of_switches 2 0 opening_status = None.
Proof.
  apply (proj2 (proj1 (proj2 (proj2
           (resolver_defined_iff_bits 2 0 opening_status))))).
  intros [[E|E] _]; discriminate E.
Defined.

Lemma resolver_v1_bits (door_open door_closed : Z) (s s1 : door_status_id) :
  V1.door_status_of_switches door_open door_closed s = Some s1 ->
  bit door_open /\ bit door_closed.
Proof.
  intros E. destruct (bit_dec door_open) as [Ho|No];
    destruct (bit_dec door_closed) as [Hc|Nc]; try (now split);
    rewrite resolver_v1_out_of_range in E by tauto; discriminate E.
Qed.

Lemma resolver_v2_bits (door_open door_closed : Z) (s s1 : door_status_id) :
  V2.door_status_of_switches door_open door_closed s = Some s1 ->
  bit door_open /\ bit door_closed.
Proof.
  intros E. destruct (bit_dec door_open) as [Ho|No];
    destruct (bit_dec door_closed) as [Hc|Nc]; try (now split);
    rewrite resolver_v2_out_of_range in E by tauto; discriminate E.
Qed.

Ltac row_v1 n :=
  exists (nth n V1.door_status_table (V1.mkEntry open_status 0 0 open_status None));
  cbn; solve [split; [auto 10|split; [discriminate|repeat split]]].

Ltac row_v2 n :=
  exists (nth n V2.door_status_table
            (V2.mkEntry open_status 0 0 open_status open_status None));
  cbn; solve [split; [auto 10|split; [discriminate|repeat split]]].

(** X2. Whatever status the lookup of [get_door_status] returns, the table
    has a described row of that status whose two switch values are the
    sampled levels. In revision 1 this covers the kept Cancelled status too
    (its row expects (0,0)); in revision 2 the kept Cancelled status is the
    one exception, as that table has no Cancelled row. *)
Theorem resolved_status_row_matches (door_open door_closed : Z)
    (s : door_status_id) :
  (forall s1,
     V1.door_status_of_switches door_open door_closed s = Some s1 ->
     exists e,
       In e V1.door_status_table
       /\ V1.description e <> None
       /\ V1.id e = s1
       /\ V1.open_switch_value e = door_open
       /\ V1.closed_switch_value e = door_closed)
  /\ (forall s2,
        V2.door_status_of_switches door_open door_closed s = Some s2 ->
        (s2 = cancelled_status /\ s = cancelled_status
         /\ door_open = 0 /\ door_closed = 0)
        \/ exists e,
             In e V2.door_status_table
             /\ V2.description e <> None
             /\ V2.id e = s2
             /\ V2.open_switch_value e = door_open
             /\ V2.closed_switch_value e = door_closed).
Proof.
  split.
  - intros s1 E. destruct (resolver_v1_bits _ _ _ _ E) as [[-> | ->] [-> | ->]];
      destruct s; cbv in E; injection E as <-;
      first [row_v1 0%nat | row_v1 1%nat | row_v1 2%nat | row_v1 3%nat
            | row_v1 4%nat | row_v1 5%nat | row_v1 6%nat].
  - intros s2 E. destruct (resolver_v2_bits _ _ _ _ E) as [[-> | ->] [-> | ->]];
      destruct s; cbv in E; injection E as <-;
      first [ left; repeat split; reflexivity
            | right;
              first [row_v2 0%nat | row_v2 1%nat | row_v2 2%nat
                    | row_v2 3%nat | row_v2 4%nat | row_v2 5%nat] ].
Qed.

Lemma resolved_status_row_matches_witness :
  exists e,
    In e V1.door_status_table
    /\ V1.description e <> None
    /\ V1.id e = cancelled_status
    /\ V1.open_switch_value e = 0
    /\ V1.closed_switch_value e = 0.
Proof.
  apply (proj1 (resolved_status_row_matches 0 0 cancelled_status)
           cancelled_status).
  reflexivity.
Defined.

Lemma resolver_v1_range (door_open door_closed : Z) (s s1 : door_status_id) :
  V1.door_status_of_switches door_open door_closed s = Some s1 ->
  In s1 [open_status; closed_status; error_status; stuck_status;
         cancelled_status].
Proof.
  intros E. destruct (resolver_v1_bits _ _ _ _ E) as [[-> | ->] [-> | ->]];
    destruct s; cbv in E; injection E as <-; cbn; auto 10.
Qed.

Lemma resolver_v2_range (door_open door_closed : Z) (s s1 : door_status_id) :
  V2.door_status_of_switches door_open door_closed s = Some s1 ->
  In s1 [open_status; closed_status; error_status; stuck_status;
         cancelled_status].
Proof.
  intros E. destruct (resolver_v2_bits _ _ _ _ E) as [[-> | ->] [-> | ->]];
    destruct s; cbv in E; injection E as <-; cbn; auto 10.
Qed.

Lemma refresh_v1_inv (r : readings) (st st' : controller) :
  V1.refresh r st = Some st' ->
  exists s1,
    V1.door_status_of_switches (switch_open r) (switch_closed r)
      (door_status st) = Some s1
    /\ st' = set_door_status s1 st.
Proof.
  unfold V1.refresh, V1.get_door_status, digitalRead; simpl.
  destruct (V1.door_status_of_switches _ _ _) as [s1|]; cbn [bind];
    [|discriminate].
  intros [= <-]. now exists s1.
Qed.

Lemma refresh_v2_inv (r : readings) (st st' : controller) :
  V2.refresh r st = Some st' ->
  exists s1,
    V2.door_status_of_switches (switch_open r) (switch_closed r)
      (door_status st) = Some s1
    /\ st' = set_door_status s1 (set_last_door_trigger 0 st).
Proof.
  unfold V2.refresh, V2.get_door_status, digitalRead; simpl.
  destruct (V2.door_status_of_switches _ _ _) as [s1|]; cbn [bind];
    [|discriminate].
  intros [= <-]. now exists s1.
Qed.

Lemma switch_interrupt_v1_inv (r : readings) (st st' : controller) :
  V1.switch_interrupt r st = Some st' ->
  exists s1 d,
    V1.door_status_of_switches (switch_open r) (switch_closed r)
      (door_status st) = Some s1
    /\ V1.door_status_string s1 = Some d
    /\ st' = mkController s1 0 (current_line st)
               (emitted st ++ [LogDoorStatus d (0 <? last_door_trigger st)]).
Proof.
  unfold V1.switch_interrupt. intros S.
  destruct (V1.refresh r st) as [st1|] eqn:R; cbn [bind] in S; [|discriminate].
  destruct (refresh_v1_inv _ _ _ R) as [s1 [E ->]].
  unfold V1.log_door_status in S. cbn [door_status set_door_status] in S.
  destruct (V1.door_status_string s1) as [d|] eqn:D; cbn [bind] in S;
    [|discriminate].
  injection S as <-. exists s1, d. repeat split; assumption.
Qed.

(** X3. The resolver reports only Open, Closed, Error, Stuck, or the kept
    Cancelled: after a refresh or a switch interrupt of either revision the
    status is never Opening or Closing. In particular a door that is
    Opening or Closing and is refreshed while both switches read 0 becomes
    Stuck. *)
Theorem refresh_never_reports_motion (r : readings) (st : controller) :
  (forall st',
     V1.refresh r st = Some st' \/ V1.switch_interrupt r st = Some st' ->
     In (door_status st')
        [open_status; closed_status; error_status; stuck_status;
         cancelled_status])
  /\ (forall st',
        V2.refresh r st = Some st' \/ V2.switch_interrupt r st = Some st' ->
        In (door_status st')
           [open_status; closed_status; error_status; stuck_status;
            cancelled_status])
  /\ (switch_open r = 0 -> switch_closed r = 0 ->
      door_status st = opening_status \/ door_status st = closing_status ->
      V1.refresh r st = Some (set_door_status stuck_status st)
      /\ V2.refresh r st
         = Some (set_door_status stuck_status (set_last_door_trigger 0 st))).
Proof.
  split; [|split].
  - intros st' [R|S].
    + destruct (refresh_v1_inv _ _ _ R) as [s1 [E ->]].
      cbn [door_status set_door_status]. eapply resolver_v1_range; eassumption.
    + destruct (switch_interrupt_v1_inv _ _ _ S) as [s1 [d [E [_ ->]]]].
      cbn [door_status]. eapply resolver_v1_range; eassumption.
  - intros st' R. assert (R' : V2.refresh r st = Some st')
      by (destruct R as [R|R]; exact R).
    destruct (refresh_v2_inv _ _ _ R') as [s1 [E ->]].
    cbn [door_status set_door_status]. eapply resolver_v2_range; eassumption.
  - intros Ho Hc H. split.
    + apply refresh_v1_result. rewrite Ho, Hc.
      destruct H as [-> | ->]; reflexivity.
    + apply refresh_v2_result. rewrite Ho, Hc.
      destruct H as [-> | ->]; reflexivity.
Qed.

Lemma refresh_never_reports_motion_witness :
  V1.refresh (mkReadings 0 0 30000)
    (mkController closing_status 5000 EmptyString press_button)
  = Some (mkController stuck_status 5000 EmptyString press_button)
  /\ V2.refresh (mkReadings 0 0 30000)
       (mkController closing_status 5000 EmptyString press_button)
     = Some (mkController stuck_status 0 EmptyString press_button).
Proof.
  apply (proj2 (proj2 (refresh_never_reports_motion (mkReadings 0 0 30000)
           (mkController closing_status 5000 EmptyString press_button))));
    [reflexivity|reflexivity|right; reflexivity].
Defined.

(** * The trigger timer *)

Lemma loop_timeout_v1_unfold (r : readings) (st : controller) :
  V1.loop_timeout r st
  = if timeout_elapsed r st then V1.refresh r st else Some st.
Proof. reflexivity. Qed.

Lemma loop_timeout_v2_unfold (r : readings) (st : controller) :
  V2.loop_timeout r st
  = if timeout_elapsed r st then V2.refresh r st else Some st.
Proof. reflexivity. Qed.

Lemma elapsed_wraps (last d : Z) :
  0 <= d < 2 ^ 32 ->
  elapsed ((last + d) mod 2 ^ 32) last = d.
Proof.
  intros D. unfold elapsed.
  rewrite Zminus_mod_idemp_l.
  replace (last + d - last) with d by lia.
  apply Z.mod_small. exact D.
Qed.

(** X4. The timeout test of [loop] measures the time since the trigger
    correctly across the wrap-around of the 32-bit millisecond clock: with
    the timer armed at [last] and the clock [d] milliseconds later (modulo
    2^32), the status is refreshed exactly when [d] is at least 20000. *)
Theorem timeout_measures_elapsed_time (r : readings) (st : controller)
    (d : Z) :
  0 < last_door_trigger st < 2 ^ 32 ->
  0 <= d < 2 ^ 32 ->
  millis r = (last_door_trigger st + d) mod 2 ^ 32 ->
  V1.loop_timeout r st
  = (if door_move_timeout <=? d then V1.refresh r st else Some st)
  /\ V2.loop_timeout r st
     = (if door_move_timeout <=? d then V2.refresh r st else Some st).
Proof.
  intros L D M.
  rewrite loop_timeout_v1_unfold, loop_timeout_v2_unfold.
  unfold timeout_elapsed. rewrite M, (elapsed_wraps _ d D).
  replace (0 <? last_door_trigger st) with true
    by (symmetry; apply Z.ltb_lt; lia).
  split; reflexivity.
Qed.

Lemma timeout_measures_elapsed_time_witness :
  V1.loop_timeout (mkReadings 0 0 15000)
    (mkController closing_status 4294962296 EmptyString press_button)
  = V1.refresh (mkReadings 0 0 15000)
      (mkController closing_status 4294962296 EmptyString press_button)
  /\ V2.loop_timeout (mkReadings 0 0 15000)
       (mkController closing_status 4294962296 EmptyString press_button)
     = V2.refresh (mkReadings 0 0 15000)
         (mkController closing_status 4294962296 EmptyString press_button).
Proof.
  apply (timeout_measures_elapsed_time (mkReadings 0 0 15000)
           (mkController closing_status 4294962296 EmptyString press_button)
           20000).
  - cbn; lia.
  - lia.
  - reflexivity.
Defined.

Lemma loop_timeout_disarmed (r : readings) (st : controller) :
  last_door_trigger st = 0 ->
  V1.loop_timeout r st = Some st /\ V2.loop_timeout r st = Some st.
Proof.
  intros E. unfold V1.loop_timeout, V2.loop_timeout. rewrite E.
  split; reflexivity.
Qed.

(** X5. Who clears the trigger timer. In revision 1 only the switch
    interrupt clears it: a refresh and a timeout that fired leave it as it
    was, so the timeout test stays true under the same clock. In revision 2
    every refresh, interrupt and fired timeout clears it. Once it is 0 the
    timeout does nothing, whatever the clock reads. *)
Theorem timer_cleared_by_resolve (r : readings) (st : controller) :
  (forall st',
     V1.switch_interrupt r st = Some st' ->
     last_door_trigger st' = 0
     /\ forall r', V1.loop_timeout r' st' = Some st')
  /\ (forall st',
        V1.refresh r st = Some st' \/ V1.loop_timeout r st = Some st' ->
        last_door_trigger st' = last_door_trigger st
        /\ timeout_elapsed r st' = timeout_elapsed r st)
  /\ (forall st',
        V2.refresh r st = Some st' \/ V2.switch_interrupt r st = Some st'
        \/ (timeout_elapsed r st = true /\ V2.loop_timeout r st = Some st') ->
        last_door_trigger st' = 0
        /\ forall r', V2.loop_timeout r' st' = Some st').
Proof.
  split; [|split].
  - intros st' S.
    destruct (switch_interrupt_v1_inv _ _ _ S) as [s1 [d [_ [_ ->]]]].
    split; [reflexivity|]. intros r'. now apply loop_timeout_disarmed.
  - intros st' H.
    assert (L : last_door_trigger st' = last_door_trigger st).
    { destruct H as [R|T].
      - destruct (refresh_v1_inv _ _ _ R) as [s1 [_ ->]]. reflexivity.
      - rewrite loop_timeout_v1_unfold in T.
        destruct (timeout_elapsed r st).
        + destruct (refresh_v1_inv _ _ _ T) as [s1 [_ ->]]. reflexivity.
        + now injection T as <-. }
    split; [exact L|]. unfold timeout_elapsed. now rewrite L.
  - intros st' H.
    assert (R : V2.refresh r st = Some st').
    { destruct H as [R|[R|[F T]]]; try exact R.
      rewrite loop_timeout_v2_unfold, F in T. exact T. }
    destruct (refresh_v2_inv _ _ _ R) as [s1 [_ ->]].
    split; [reflexivity|]. intros r'. now apply loop_timeout_disarmed.
Qed.

Lemma timer_cleared_by_resolve_witness :
  last_door_trigger
    (mkController open_status 0 EmptyString
       (press_button ++ [LogDoorStatus "open" true])) = 0
  /\ forall r',
       V1.loop_timeout r'
         (mkController open_status 0 EmptyString
            (press_button ++ [LogDoorStatus "open" true]))
       = Some (mkController open_status 0 EmptyString
                 (press_button ++ [LogDoorStatus "open" true])).
Proof.
  apply (proj1 (timer_cleared_by_resolve (mkReadings 1 0 12000)
                  (mkController opening_status 5000 EmptyString press_button))).
  reflexivity.
Defined.

(** X6. In revision 1, with both switches reading 0 or 1, the switch
    interrupt returns; it stores the resolved status, reports to the log
    exactly once the description of that new status together with whether
    the trigger timer was running before the interrupt, clears the timer,
    and writes nothing to the actuator pin. *)
Theorem switch_interrupt_logs_new_status (r : readings) (st : controller) :
  readings_are_bits r ->
  exists st' d,
    V1.switch_interrupt r st = Some st'
    /\ V1.door_status_of_switches (switch_open r) (switch_closed r)
         (door_status st) = Some (door_status st')
    /\ V1.door_status_string (door_status st') = Some d
    /\ emitted st'
       = (emitted st ++ [LogDoorStatus d (0 <? last_door_trigger st)])%list
    /\ last_door_trigger st' = 0
    /\ current_line st' = current_line st
    /\ pulsed st st' = false.
Proof.
  intros [Ho Hc].
  destruct (resolver_total_v1 _ _ (door_status st) Ho Hc) as [s1 E].
  destruct (door_status_string_total_v1 s1) as [d D].
  exists (mkController s1 0 (current_line st)
            (emitted st ++ [LogDoorStatus d (0 <? last_door_trigger st)])), d.
  split.
  - unfold V1.switch_interrupt. rewrite (refresh_v1_result r st s1 E).
    cbn [bind]. unfold V1.log_door_status.
    cbn [door_status set_door_status]. rewrite D. reflexivity.
  - cbn [door_status emitted last_door_trigger current_line].
    repeat split; try assumption.
    apply pulsed_quiet. unfold pulses; cbn [emitted].
    rewrite filter_app. cbn. now rewrite app_nil_r.
Qed.

Lemma switch_interrupt_logs_new_status_witness :
  exists st' d,
    V1.switch_interrupt (mkReadings 0 1 12000)
      (mkController closing_status 5000 EmptyString press_button) = Some st'
    /\ V1.door_status_of_switches 0 1 closing_status = Some (door_status st')
    /\ V1.door_status_string (door_status st') = Some d
    /\ emitted st' = (press_button ++ [LogDoorStatus d true])%list
    /\ last_door_trigger st' = 0
    /\ current_line st' = EmptyString
    /\ pulsed (mkController closing_status 5000 EmptyString press_button) st'
       = false.
Proof.
  apply (switch_interrupt_logs_new_status (mkReadings 0 1 12000)
           (mkController closing_status 5000 EmptyString press_button)).
  split; [left|right]; reflexivity.
Defined.

(** * Further properties of the trigger engine *)

(** X7. In revision 1, [trigger_door] called while the status is neither
    Stuck nor Error always returns: it presses the button once (high, one
    second, low), then arms the timer with the clock and moves to the next
    status of the table, which always differs from the current one and is
    one of Closing, Opening and Cancelled. *)
Theorem trigger_accepted_contract (r : readings) (st : controller) :
  door_status st <> stuck_status ->
  door_status st <> error_status ->
  exists st',
    V1.trigger_door r st = Some st'
    /\ V1.next_door_status (door_status st) = Some (door_status st')
    /\ door_status st' <> door_status st
    /\ In (door_status st')
          [closing_status; opening_status; cancelled_status]
    /\ emitted st' = (emitted st ++ press_button)%list
    /\ pulses st' = S (pulses st)
    /\ last_door_trigger st' = millis r
    /\ current_line st' = current_line st.
Proof.
  intros Ns Ne. rewrite trigger_door_moves by assumption.
  destruct st as [s l line out]; cbn [door_status] in *.
  destruct s; try contradiction; cbn [bind];
    (eexists; split; [reflexivity|]);
    cbn [door_status emitted last_door_trigger current_line];
    (split; [reflexivity|]); (split; [discriminate|]);
    (split; [cbn; auto|]); (split; [reflexivity|]);
    (split; [|split; reflexivity]);
    unfold pulses; cbn [emitted]; rewrite filter_app, length_app; cbn; lia.
Qed.

Lemma trigger_accepted_contract_witness :
  exists st',
    V1.trigger_door (mkReadings 0 0 7000)
      (mkController cancelled_status 0 "GET /trigger" []) = Some st'
    /\ V1.next_door_status cancelled_status = Some (door_status st')
    /\ door_status st' <> cancelled_status
    /\ In (door_status st')
          [closing_status; opening_status; cancelled_status]
    /\ emitted st' = press_button
    /\ pulses st' = 1%nat
    /\ last_door_trigger st' = 7000
    /\ current_line st' = "GET /trigger".
Proof.
  apply (trigger_accepted_contract (mkReadings 0 0 7000)
           (mkController cancelled_status 0 "GET /trigger" []));
    discriminate.
Defined.

Lemma next_door_status_v2_idempotent (command : V2.command_id)
    (s : door_status_id) :
  V2.next_door_status command (V2.next_door_status command s)
  = V2.next_door_status command s.
Proof. destruct command, s; reflexivity. Qed.

(** X8. In revision 2 a command repeated right after itself does nothing
    but arm the timer again: the second call of [trigger_door] with the same
    command leaves the status where the first one put it and does not press
    the button. This holds from every status and for every command
    value. *)
Theorem repeated_command_does_not_pulse (command : V2.command_id)
    (r r' : readings) (st : controller) :
  V2.trigger_door command r' (V2.trigger_door command r st)
  = set_last_door_trigger (millis r') (V2.trigger_door command r st)
  /\ pulsed (V2.trigger_door command r st)
       (V2.trigger_door command r' (V2.trigger_door command r st)) = false.
Proof.
  assert (E : V2.trigger_door command r' (V2.trigger_door command r st)
              = set_last_door_trigger (millis r')
                  (V2.trigger_door command r st)).
  { rewrite (trigger_door_v2_unfold command r').
    rewrite (trigger_door_v2_unfold command r st).
    cbn [door_status emitted current_line set_last_door_trigger].
    rewrite next_door_status_v2_idempotent.
    now rewrite (proj2 (status_eqb_eq _ _) eq_refl). }
  split; [exact E|]. rewrite E. now apply pulsed_quiet.
Qed.

Lemma trigger_door_v2_absorbed (command : V2.command_id) (r : readings)
    (st : controller) :
  In (door_status st)
     [stuck_status; error_status; opening_status; cancelled_status] ->
  V2.trigger_door command r st = set_last_door_trigger (millis r) st.
Proof.
  intros H. rewrite trigger_door_v2_unfold. destruct st as [s l line out].
  cbn in H. cbn [door_status emitted current_line set_last_door_trigger].
  destruct H as [<-|[<-|[<-|[<-|[]]]]]; destruct command; reflexivity.
Qed.

(** X9. In revision 2 a command received while the status is Stuck, Error,
    Opening or Cancelled changes nothing but the trigger timer, which it
    arms with the clock: no status change and no pulse, for either
    command. *)
Theorem command_ignored_but_timer_armed (command : V2.command_id)
    (r : readings) (st : controller) :
  In (door_status st)
     [stuck_status; error_status; opening_status; cancelled_status] ->
  V2.trigger_door command r st = set_last_door_trigger (millis r) st
  /\ pulsed st (V2.trigger_door command r st) = false.
Proof.
  intros H. pose proof (trigger_door_v2_absorbed command r st H) as E.
  split; [exact E|]. rewrite E. now apply pulsed_quiet.
Qed.

Lemma command_ignored_but_timer_armed_witness :
  V2.trigger_door V2.open_command (mkReadings 0 0 8000)
    (mkController stuck_status 0 "GET /open" [])
  = mkController stuck_status 8000 "GET /open" []
  /\ pulsed (mkController stuck_status 0 "GET /open" [])
       (V2.trigger_door V2.open_command (mkReadings 0 0 8000)
          (mkController stuck_status 0 "GET /open" [])) = false.
Proof.
  apply (command_ignored_but_timer_armed V2.open_command
           (mkReadings 0 0 8000)
           (mkController stuck_status 0 "GET /open" [])).
  left; reflexivity.
Defined.

Lemma command_step_budget (command : V2.command_id) (r : readings)
    (st : controller) :
  (pulses (V2.trigger_door command r st)
   + pulses_left_v2 (door_status (V2.trigger_door command r st))
   <= pulses st + pulses_left_v2 (door_status st))%nat.
Proof.
  rewrite trigger_door_v2_unfold. destruct st as [s l line out].
  unfold pulses. cbn [door_status emitted].
  destruct s, command; cbn [V2.next_door_status status_eqb emitted];
    cbn; rewrite ?filter_app, ?length_app; cbn; lia.
Qed.

(** X10. In revision 2 any sequence of open and close commands, with no
    refresh or interrupt in between, presses the button at most twice in
    all; and once the status is Opening no command of the sequence changes
    the status or presses the button. *)
Theorem commands_pulse_at_most_twice (os : list V2.operation)
    (st : controller) :
  Forall (fun o => is_command_v2 o = true) os ->
  exists st',
    V2.run os st = Some st'
    /\ (pulses st' + pulses_left_v2 (door_status st')
        <= pulses st + pulses_left_v2 (door_status st))%nat
    /\ (pulses st' <= pulses st + 2)%nat
    /\ (door_status st = opening_status ->
        door_status st' = opening_status /\ pulses st' = pulses st).
Proof.
  revert st. induction os as [|o os IH]; intros st F.
  - exists st. cbn [V2.run]. repeat split; try lia; assumption.
  - inversion F as [|? ? Fo Fos]; subst.
    assert (S1 : exists command r,
               V2.step o st = Some (V2.trigger_door command r st)).
    { destruct o; try discriminate Fo; cbn [V2.step]; eauto. }
    destruct S1 as [command [r S1]].
    destruct (IH (V2.trigger_door command r st) Fos) as [st' [R [B [_ O]]]].
    pose proof (command_step_budget command r st) as B1.
    exists st'. cbn [V2.run]. rewrite S1. cbn [bind].
    split; [exact R|]. split; [lia|]. split.
    + assert (pulses_left_v2 (door_status st) <= 2)%nat
        by (destruct (door_status st); cbn; lia).
      lia.
    + intros E.
      assert (T : V2.trigger_door command r st
                  = set_last_door_trigger (millis r) st).
      { apply trigger_door_v2_absorbed. rewrite E. cbn. auto. }
      rewrite T in O. cbn [door_status set_last_door_trigger] in O.
      destruct (O E) as [O1 O2]. split; [exact O1|].
      rewrite O2. reflexivity.
Qed.

Lemma commands_pulse_at_most_twice_witness :
  exists st',
    V2.run [V2.Close (mkReadings 1 0 1000); V2.Open (mkReadings 0 0 2000);
            V2.Close (mkReadings 0 0 3000); V2.Open (mkReadings 0 0 4000)]
      (mkController open_status 0 EmptyString []) = Some st'
    /\ (pulses st' + pulses_left_v2 (door_status st') <= 0 + 2)%nat
    /\ (pulses st' <= 0 + 2)%nat
    /\ (open_status = opening_status ->
        door_status st' = opening_status /\ pulses st' = 0%nat).
Proof.
  apply (commands_pulse_at_most_twice
           [V2.Close (mkReadings 1 0 1000); V2.Open (mkReadings 0 0 2000);
            V2.Close (mkReadings 0 0 3000); V2.Open (mkReadings 0 0 4000)]
           (mkController open_status 0 EmptyString [])).
  repeat constructor.
Defined.

(** * Whole sequences of operations *)

Lemma appends_released_refl (st : controller) : appends_released st st.
Proof. exists []. split; [now rewrite app_nil_r|reflexivity]. Qed.

Lemma appends_released_trans (a b c : controller) :
  appends_released a b -> appends_released b c -> appends_released a c.
Proof.
  intros [e1 [E1 L1]] [e2 [E2 L2]]. exists (e1 ++ e2)%list. split.
  - rewrite E2, E1. now rewrite app_assoc.
  - unfold level_after in *. rewrite fold_left_app, L1. exact L2.
Qed.

Lemma button_level_kept (st st' : controller) :
  appends_released st st' ->
  button_level st = false -> button_level st' = false.
Proof.
  intros [es [E L]] B. unfold button_level, level_after in *.
  rewrite E, fold_left_app, B. exact L.
Qed.

Lemma trigger_door_v1_total (r : readings) (st : controller) :
  exists st',
    V1.trigger_door r st = Some st'
    /\ current_line st' = current_line st
    /\ appends_released st st'.
Proof.
  destruct st as [s l line out].
  destruct s; (eexists; split; [reflexivity|]); (split; [reflexivity|]);
    first [ exists []; split; [cbn; now rewrite app_nil_r|reflexivity]
          | exists press_button; split; reflexivity ].
Qed.

Lemma trigger_door_v2_effect (command : V2.command_id) (r : readings)
    (st : controller) :
  current_line (V2.trigger_door command r st) = current_line st
  /\ appends_released st (V2.trigger_door command r st).
Proof.
  rewrite trigger_door_v2_unfold. split; [reflexivity|].
  cbn [emitted]. destruct (status_eqb _ _).
  - exists []. split; [now rewrite app_nil_r|reflexivity].
  - exists press_button. split; reflexivity.
Qed.

Lemma refresh_v1_effect (r : readings) (st st' : controller) :
  V1.refresh r st = Some st' ->
  current_line st' = current_line st /\ appends_released st st'.
Proof.
  intros R. destruct (refresh_v1_inv _ _ _ R) as [s1 [_ ->]].
  split; [reflexivity|].
  exists []. split; [cbn; now rewrite app_nil_r|reflexivity].
Qed.

Lemma refresh_v2_effect (r : readings) (st st' : controller) :
  V2.refresh r st = Some st' ->
  current_line st' = current_line st /\ appends_released st st'.
Proof.
  intros R. destruct (refresh_v2_inv _ _ _ R) as [s1 [_ ->]].
  split; [reflexivity|].
  exists []. split; [cbn; now rewrite app_nil_r|reflexivity].
Qed.

Lemma dispatch_v1_effect (r : readings) (st st' : controller) :
  V1.dispatch r st = Some st' ->
  current_line st' = current_line st /\ appends_released st st'.
Proof.
  unfold V1.dispatch. intros D.
  destruct (endsWith _ "GET /trigger").
  - destruct (trigger_door_v1_total r st) as [st1 [T [L A]]].
    rewrite T in D. injection D as <-. now split.
  - destruct (endsWith _ "GET /refresh").
    + now apply (refresh_v1_effect r).
    + injection D as <-. split; [reflexivity|apply appends_released_refl].
Qed.

Lemma dispatch_v2_effect (r : readings) (st st' : controller) :
  V2.dispatch r st = Some st' ->
  current_line st' = current_line st /\ appends_released st st'.
Proof.
  unfold V2.dispatch. intros D.
  destruct (endsWith _ "GET /open").
  { injection D as <-. apply trigger_door_v2_effect. }
  destruct (endsWith _ "GET /close").
  { injection D as <-. apply trigger_door_v2_effect. }
  destruct (endsWith _ "GET /refresh").
  { now apply (refresh_v2_effect r). }
  injection D as <-. split; [reflexivity|apply appends_released_refl].
Qed.

Lemma read_char_v1_effect (c : ascii) (st st' : controller) :
  V1.read_char c st = Some st' ->
  current_line st' = next_line c (current_line st)
  /\ appends_released st st'.
Proof.
  unfold V1.read_char, next_line.
  destruct (Ascii.eqb c newline).
  - destruct (Nat.eqb _ 0).
    + unfold V1.respond. destruct (V1.door_status_string _) as [d|];
        cbn [bind]; [|discriminate].
      intros [= <-]. split; [reflexivity|]. eexists. split; reflexivity.
    + intros [= <-]. split; [reflexivity|].
      exists []. split; [cbn; now rewrite app_nil_r|reflexivity].
  - destruct (negb _); intros [= <-]; (split; [reflexivity|]);
      exists []; (split; [cbn; now rewrite app_nil_r|reflexivity]).
Qed.

Lemma read_char_v2_effect (c : ascii) (st st' : controller) :
  V2.read_char c st = Some st' ->
  current_line st' = next_line c (current_line st)
  /\ appends_released st st'.
Proof.
  unfold V2.read_char, next_line.
  destruct (Ascii.eqb c newline).
  - destruct (Nat.eqb _ 0).
    + unfold V2.respond. destruct (V2.door_status_string _) as [d|];
        cbn [bind]; [|discriminate].
      intros [= <-]. split; [reflexivity|]. eexists. split; reflexivity.
    + intros [= <-]. split; [reflexivity|].
      exists []. split; [cbn; now rewrite app_nil_r|reflexivity].
  - destruct (negb _); intros [= <-]; (split; [reflexivity|]);
      exists []; (split; [cbn; now rewrite app_nil_r|reflexivity]).
Qed.

Lemma proccess_command_v1_effect (c : ascii) (r : readings)
    (st st' : controller) :
  V1.proccess_command c r st = Some st' ->
  current_line st' = next_line c (current_line st)
  /\ appends_released st st'.
Proof.
  unfold V1.proccess_command. intros P.
  destruct (V1.read_char c st) as [st1|] eqn:R; cbn [bind] in P;
    [|discriminate].
  destruct (read_char_v1_effect _ _ _ R) as [L1 A1].
  destruct (dispatch_v1_effect _ _ _ P) as [L2 A2].
  split; [congruence|]. eapply appends_released_trans; eassumption.
Qed.

Lemma proccess_command_v2_effect (c : ascii) (r : readings)
    (st st' : controller) :
  V2.proccess_command c r st = Some st' ->
  current_line st' = next_line c (current_line st)
  /\ appends_released st st'.
Proof.
  unfold V2.proccess_command. intros P.
  destruct (V2.dispatch r st) as [st1|] eqn:D; cbn [bind] in P;
    [|discriminate].
  destruct (dispatch_v2_effect _ _ _ D) as [L1 A1].
  destruct (read_char_v2_effect _ _ _ P) as [L2 A2].
  split; [congruence|]. eapply appends_released_trans; eassumption.
Qed.

(** X11. In both revisions a call of [proccess_command] that returns
    leaves in the line buffer what the character alone determines: empty
    after a newline, unchanged after a carriage return, the character
    appended otherwise. Triggering and refreshing never touch the buffer,
    so a request cannot continue across a line end. *)
Theorem line_buffer_follows_input (c : ascii) (r : readings)
    (st : controller) :
  (forall st',
     V1.proccess_command c r st = Some st' ->
     current_line st' = next_line c (current_line st))
  /\ (forall st',
        V2.proccess_command c r st = Some st' ->
        current_line st' = next_line c (current_line st))
  /\ next_line newline (current_line st) = EmptyString
  /\ next_line carriage_return (current_line st) = current_line st.
Proof.
  split; [|split; [|split]].
  - intros st' P. now apply (proccess_command_v1_effect c r).
  - intros st' P. now apply (proccess_command_v2_effect c r).
  - reflexivity.
  - reflexivity.
Qed.

Lemma line_buffer_follows_input_witness :
  current_line (mkController closing_status 1000 "GET /trigger" press_button)
  = next_line "r" "GET /trigge".
Proof.
  apply (proj1 (line_buffer_follows_input "r" (mkReadings 1 0 1000)
                  (mkController open_status 0 "GET /trigge" []))).
  reflexivity.
Defined.

Lemma step_v1_effect (o : V1.operation) (st st' : controller) :
  V1.step o st = Some st' -> appends_released st st'.
Proof.
  destruct o as [r|r|r|r|c r]; cbn [V1.step]; intros S.
  - destruct (switch_interrupt_v1_inv _ _ _ S) as [s1 [d [_ [_ ->]]]].
    eexists. split; reflexivity.
  - rewrite loop_timeout_v1_unfold in S. destruct (timeout_elapsed r st).
    + now apply (refresh_v1_effect r).
    + injection S as <-. apply appends_released_refl.
  - now apply (refresh_v1_effect r).
  - destruct (trigger_door_v1_total r st) as [st1 [T [_ A]]].
    rewrite T in S. now injection S as <-.
  - now apply (proccess_command_v1_effect c r).
Qed.

Lemma step_v2_effect (o : V2.operation) (st st' : controller) :
  V2.step o st = Some st' -> appends_released st st'.
Proof.
  destruct o as [r|r|r|r|r|c r]; cbn [V2.step]; intros S.
  - now apply (refresh_v2_effect r).
  - rewrite loop_timeout_v2_unfold in S. destruct (timeout_elapsed r st).
    + now apply (refresh_v2_effect r).
    + injection S as <-. apply appends_released_refl.
  - now apply (refresh_v2_effect r).
  - injection S as <-. apply trigger_door_v2_effect.
  - injection S as <-. apply trigger_door_v2_effect.
  - now apply (proccess_command_v2_effect c r).
Qed.

Lemma run_v1_effect (os : list V1.operation) :
  forall st st', V1.run os st = Some st' -> appends_released st st'.
Proof.
  induction os as [|o os IH]; intros st st' R; cbn [V1.run] in R.
  - injection R as <-. apply appends_released_refl.
  - destruct (V1.step o st) as [st1|] eqn:S; cbn [bind] in R; [|discriminate].
    eapply appends_released_trans; [eapply step_v1_effect|eapply IH];
      eassumption.
Qed.

Lemma run_v2_effect (os : list V2.operation) :
  forall st st', V2.run os st = Some st' -> appends_released st st'.
Proof.
  induction os as [|o os IH]; intros st st' R; cbn [V2.run] in R.
  - injection R as <-. apply appends_released_refl.
  - destruct (V2.step o st) as [st1|] eqn:S; cbn [bind] in R; [|discriminate].
    eapply appends_released_trans; [eapply step_v2_effect|eapply IH];
      eassumption.
Qed.

Lemma switch_interrupt_v1_total (r : readings) (st : controller) :
  readings_are_bits r ->
  exists st', V1.switch_interrupt r st = Some st'.
Proof.
  intros [Ho Hc].
  destruct (resolver_total_v1 _ _ (door_status st) Ho Hc) as [s1 E].
  destruct (door_status_string_total_v1 s1) as [d D].
  eexists. unfold V1.switch_interrupt. rewrite (refresh_v1_result r st s1 E).
  cbn [bind]. unfold V1.log_door_status.
  cbn [door_status set_door_status]. rewrite D. reflexivity.
Qed.

Lemma step_v1_total (o : V1.operation) (st : controller) :
  readings_are_bits (V1.readings_of o) ->
  exists st', V1.step o st = Some st'.
Proof.
  intros B. assert (R : forall r st0, readings_are_bits r ->
                          exists st', V1.refresh r st0 = Some st').
  { intros r st0 [Ho Hc].
    destruct (resolver_total_v1 _ _ (door_status st0) Ho Hc) as [s1 E].
    eexists. eapply refresh_v1_result. exact E. }
  destruct o as [r|r|r|r|c r]; cbn [V1.step V1.readings_of] in *.
  - destruct (switch_interrupt_v1_total r st B) as [st' S].
    now exists st'.
  - rewrite loop_timeout_v1_unfold. destruct (timeout_elapsed r st);
      [now apply R|now eexists].
  - now apply R.
  - destruct (trigger_door_v1_total r st) as [st' [T _]]. now exists st'.
  - unfold V1.proccess_command.
    destruct (read_char_v1_keeps_door c st) as [st1 [RC _]].
    rewrite RC. cbn [bind]. unfold V1.dispatch.
    destruct (endsWith _ "GET /trigger").
    + destruct (trigger_door_v1_total r st1) as [st' [T _]]. now exists st'.
    + destruct (endsWith _ "GET /refresh"); [now apply R|now eexists].
Qed.

(** X12. In revision 1 every sequence of operations (interrupts, timeouts,
    refreshes, triggers, characters received) whose switch readings are all
    0 or 1 returns, from any state of the controller: no table scan of the
    sketch runs off its sentinel. *)
Theorem operations_always_return_v1 (os : list V1.operation)
    (st : controller) :
  Forall (fun o => readings_are_bits (V1.readings_of o)) os ->
  exists st', V1.run os st = Some st'.
Proof.
  revert st. induction os as [|o os IH]; intros st B; cbn [V1.run].
  - now eexists.
  - inversion B as [|? ? Bo Bos]; subst.
    destruct (step_v1_total o st Bo) as [st1 S].
    rewrite S; cbn [bind]. now apply IH.
Qed.

Lemma operations_always_return_v1_witness :
  exists st',
    V1.run [V1.Trigger (mkReadings 1 0 1000);
            V1.Timeout (mkReadings 0 0 22000);
            V1.Receive newline (mkReadings 0 0 23000);
            V1.Interrupt (mkReadings 0 1 30000)]
      (mkController open_status 0 EmptyString []) = Some st'.
Proof.
  apply (operations_always_return_v1
           [V1.Trigger (mkReadings 1 0 1000);
            V1.Timeout (mkReadings 0 0 22000);
            V1.Receive newline (mkReadings 0 0 23000);
            V1.Interrupt (mkReadings 0 1 30000)]
           (mkController open_status 0 EmptyString [])).
  repeat (apply Forall_cons; [split; cbn; unfold bit; auto|]).
  apply Forall_nil.
Defined.

(** X13. The actuator pin is never left high: in both revisions, if the pin
    is low before a sequence of operations (as it is at power-up), it is
    low after every sequence that returns; whatever the sketch writes to
    the pin comes as a complete press, high and then low. *)
Theorem actuator_pin_left_low (st : controller) :
  button_level st = false ->
  (forall os st', V1.run os st = Some st' -> button_level st' = false)
  /\ (forall os st', V2.run os st = Some st' -> button_level st' = false).
Proof.
  intros B. split; intros os st' R.
  - eapply button_level_kept; [eapply run_v1_effect; eassumption|exact B].
  - eapply button_level_kept; [eapply run_v2_effect; eassumption|exact B].
Qed.

Lemma actuator_pin_left_low_witness :
  button_level (mkController closing_status 1000 EmptyString press_button)
  = false.
Proof.
  apply (proj1 (actuator_pin_left_low
                  (mkController open_status 0 EmptyString []) eq_refl)
           [V1.Trigger (mkReadings 1 0 1000)]).
  reflexivity.
Defined.

(** * Whole requests *)

Lemma serve_v1_app (a b : list (ascii * readings)) :
  forall st, V1.serve (a ++ b) st = bind (V1.serve a st) (V1.serve b).
Proof.
  induction a as [|[c r] a IH]; intros st; [reflexivity|].
  cbn [app V1.serve].
  destruct (V1.proccess_command c r st) as [st1|]; cbn [bind];
    [apply IH|reflexivity].
Qed.

Lemma serve_v2_app (a b : list (ascii * readings)) :
  forall st, V2.serve (a ++ b) st = bind (V2.serve a st) (V2.serve b).
Proof.
  induction a as [|[c r] a IH]; intros st; [reflexivity|].
  cbn [app V2.serve].
  destruct (V2.proccess_command c r st) as [st1|]; cbn [bind];
    [apply IH|reflexivity].
Qed.

Lemma serve_v1_trigger_request (r : readings) (st : controller) :
  current_line st = EmptyString ->
  V1.serve (request "trigger" r) st
  = V1.trigger_door r (set_current_line "GET /trigger" st).
Proof.
  destruct st as [s l line out]; cbn [current_line]; intros ->.
  destruct s; reflexivity.
Qed.

Lemma serve_v2_open_request (r : readings) (st : controller) :
  current_line st = EmptyString ->
  V2.serve (request "open" r) st = Some (set_current_line "GET /open" st).
Proof.
  destruct st as [s l line out]; cbn [current_line]; intros ->.
  reflexivity.
Qed.

Lemma serve_v2_close_request (r : readings) (st : controller) :
  current_line st = EmptyString ->
  V2.serve (request "close" r) st = Some (set_current_line "GET /close" st).
Proof.
  destruct st as [s l line out]; cbn [current_line]; intros ->.
  reflexivity.
Qed.

(** X14. In revision 1 the dispatch test runs after every character, also
    after a carriage return, which leaves the line as it was: a carriage
    return is processed exactly as the dispatch alone. So a carriage return
    that directly follows "GET /trigger" triggers the door a second time;
    from Open with an empty line, the request "GET /trigger" followed by a
    carriage return leaves the status Opening after two presses of the
    button. *)
Theorem carriage_return_repeats_dispatch (r : readings) (st : controller) :
  V1.proccess_command carriage_return r st = V1.dispatch r st
  /\ (endsWith (current_line st) "GET /trigger" = true ->
      V1.proccess_command carriage_return r st = V1.trigger_door r st)
  /\ (forall r0,
        current_line st = EmptyString ->
        door_status st = open_status ->
        exists st',
          V1.serve (request "trigger" r0 ++ [(carriage_return, r)]) st
          = Some st'
          /\ door_status st' = opening_status
          /\ pulses st' = (pulses st + 2)%nat).
Proof.
  assert (P : V1.proccess_command carriage_return r st = V1.dispatch r st)
    by reflexivity.
  split; [exact P|]. split.
  - intros E. rewrite P. unfold V1.dispatch. now rewrite E.
  - intros r0 L O. rewrite serve_v1_app, (serve_v1_trigger_request r0 st L).
    destruct st as [s l line out]; cbn [current_line door_status] in *.
    subst. eexists. split; [reflexivity|]. split; [reflexivity|].
    unfold pulses, set_door_status, set_last_door_trigger, emit,
      set_current_line; cbn [emitted].
    rewrite !filter_app, !length_app. cbn. lia.
Qed.

Lemma carriage_return_repeats_dispatch_witness :
  V1.proccess_command carriage_return (mkReadings 0 0 9000)
    (mkController closing_status 5000 "GET /trigger" press_button)
  = V1.trigger_door (mkReadings 0 0 9000)
      (mkController closing_status 5000 "GET /trigger" press_button).
Proof.
  apply (proj1 (proj2 (carriage_return_repeats_dispatch
                         (mkReadings 0 0 9000)
                         (mkController closing_status 5000 "GET /trigger"
                            press_button)))).
  reflexivity.
Defined.

(** X15. In revision 1 a request that starts "GET /trigger" on an empty
    line, followed by characters that complete no further command, is one
    call of [trigger_door], made when the last letter of "trigger" arrives:
    all the characters are processed, and the door status, the trigger
    timer and the number of presses are those [trigger_door] left. *)
Theorem trigger_request_triggers_once (r : readings)
    (rest : list (ascii * readings)) (st : controller) :
  current_line st = EmptyString ->
  never_matches_v1 "GET /trigger" (map fst rest) = true ->
  exists st1 st',
    V1.trigger_door r (set_current_line "GET /trigger" st) = Some st1
    /\ V1.serve (request "trigger" r ++ rest) st = Some st'
    /\ door_status st' = door_status st1
    /\ last_door_trigger st' = last_door_trigger st1
    /\ pulses st' = pulses st1.
Proof.
  intros L N.
  destruct (trigger_door_v1_total r (set_current_line "GET /trigger" st))
    as [st1 [T [L1 _]]].
  cbn [current_line set_current_line] in L1. rewrite <- L1 in N.
  destruct (serve_v1_unmatched rest st1 N) as [st' [S' [A [B C]]]].
  exists st1, st'. split; [exact T|]. split; [|now repeat split].
  rewrite serve_v1_app, (serve_v1_trigger_request r st L), T. exact S'.
Qed.

Lemma trigger_request_triggers_once_witness :
  exists st1 st',
    V1.trigger_door (mkReadings 1 0 5000)
      (set_current_line "GET /trigger"
         (mkController open_status 0 EmptyString [])) = Some st1
    /\ V1.serve
         (request "trigger" (mkReadings 1 0 5000)
          ++ map (fun c => (c, mkReadings 0 0 6000))
               (list_ascii_of_string " HTTP/1.1"
                ++ [carriage_return; newline; carriage_return; newline]))
         (mkController open_status 0 EmptyString []) = Some st'
    /\ door_status st' = door_status st1
    /\ last_door_trigger st' = last_door_trigger st1
    /\ pulses st' = pulses st1.
Proof.
  apply (trigger_request_triggers_once (mkReadings 1 0 5000)
           (map (fun c => (c, mkReadings 0 0 6000))
              (list_ascii_of_string " HTTP/1.1"
               ++ [carriage_return; newline; carriage_return; newline]))
           (mkController open_status 0 EmptyString []));
    reflexivity.
Defined.

Lemma dispatch_v2_command_line (command : V2.command_id) (r : readings)
    (st : controller) :
  command = V2.open_command \/ command = V2.close_command ->
  V2.dispatch r
    (set_current_line (String.append "GET /" (command_text_v2 command)) st)
  = Some (V2.trigger_door command r
            (set_current_line
               (String.append "GET /" (command_text_v2 command)) st)).
Proof. intros [-> | ->]; reflexivity. Qed.

Lemma serve_v2_command_request (command : V2.command_id) (r : readings)
    (st : controller) :
  command = V2.open_command \/ command = V2.close_command ->
  current_line st = EmptyString ->
  V2.serve (request (command_text_v2 command) r) st
  = Some (set_current_line
            (String.append "GET /" (command_text_v2 command)) st).
Proof.
  intros [-> | ->] L;
    [now apply serve_v2_open_request|now apply serve_v2_close_request].
Qed.

Lemma serve_v2_after_command (command : V2.command_id)
    (r r' : readings) (c : ascii) (rest : list (ascii * readings))
    (st : controller) :
  command = V2.open_command \/ command = V2.close_command ->
  current_line st = EmptyString ->
  door_status st <> cancelled_status ->
  never_matches_v2
    (next_line c (String.append "GET /" (command_text_v2 command)))
    (map fst rest) = true ->
  exists st',
    V2.serve (request (command_text_v2 command) r ++ (c, r') :: rest) st
    = Some st'
    /\ same_door
         (V2.trigger_door command r'
            (set_current_line
               (String.append "GET /" (command_text_v2 command)) st))
         st'.
Proof.
  intros C L N M.
  pose proof (serve_v2_command_request command r st C L) as P.
  set (line := String.append "GET /" (command_text_v2 command)) in *.
  set (st1 := V2.trigger_door command r' (set_current_line line st)).
  assert (N1 : door_status st1 <> cancelled_status)
    by (apply trigger_door_v2_not_cancelled; exact N).
  destruct (read_char_v2_keeps_door c st1 N1) as [st2 [R [D L2]]].
  assert (L1 : current_line st1 = line)
    by (subst st1; rewrite (proj1 (trigger_door_v2_effect _ _ _));
        reflexivity).
  rewrite L1 in L2. rewrite <- L2 in M.
  assert (N2 : door_status st2 <> cancelled_status)
    by (destruct D as [D _]; congruence).
  destruct (serve_v2_unmatched rest st2 N2 M) as [st' [S' D']].
  exists st'. split; [|eapply same_door_trans; eassumption].
  rewrite serve_v2_app, P. cbn [bind V2.serve].
  unfold V2.proccess_command. subst line.
  rewrite (dispatch_v2_command_line command r' st C). cbn [bind].
  fold st1. rewrite R. cbn [bind]. exact S'.
Qed.

(** X16. In revision 2 the dispatch test runs before the character of the
    call is stored, so a command takes effect one character late. After
    exactly "GET /open" or "GET /close" on an empty line nothing has
    happened to the door; the next character, whichever it is, makes the
    one call of [trigger_door], with the clock of that later call; and
    further characters that complete no command leave the door as that call
    left it. *)
Theorem command_acts_on_next_character (command : V2.command_id)
    (r r' : readings) (c : ascii) (rest : list (ascii * readings))
    (st : controller) :
  command = V2.open_command \/ command = V2.close_command ->
  current_line st = EmptyString ->
  door_status st <> cancelled_status ->
  never_matches_v2
    (next_line c (String.append "GET /" (command_text_v2 command)))
    (map fst rest) = true ->
  V2.serve (request (command_text_v2 command) r) st
  = Some (set_current_line
            (String.append "GET /" (command_text_v2 command)) st)
  /\ exists st',
       V2.serve (request (command_text_v2 command) r ++ (c, r') :: rest) st
       = Some st'
       /\ same_door
            (V2.trigger_door command r'
               (set_current_line
                  (String.append "GET /" (command_text_v2 command)) st))
            st'.
Proof.
  intros C L N M. split.
  - now apply serve_v2_command_request.
  - now apply serve_v2_after_command.
Qed.

Lemma command_acts_on_next_character_witness :
  V2.serve (request "open" (mkReadings 0 1 5000))
    (mkController closed_status 0 EmptyString [])
  = Some (mkController closed_status 0 "GET /open" [])
  /\ exists st',
       V2.serve
         (request "open" (mkReadings 0 1 5000)
          ++ (" "%char, mkReadings 0 1 5002)
             :: map (fun c => (c, mkReadings 0 0 6000))
                  (list_ascii_of_string "HTTP/1.1"
                   ++ [carriage_return; newline; carriage_return; newline]))
         (mkController closed_status 0 EmptyString []) = Some st'
       /\ same_door
            (V2.trigger_door V2.open_command (mkReadings 0 1 5002)
               (mkController closed_status 0 "GET /open" []))
            st'.
Proof.
  apply (command_acts_on_next_character V2.open_command
           (mkReadings 0 1 5000) (mkReadings 0 1 5002) " "%char
           (map (fun c => (c, mkReadings 0 0 6000))
              (list_ascii_of_string "HTTP/1.1"
               ++ [carriage_return; newline; carriage_return; newline]))
           (mkController closed_status 0 EmptyString []));
    [left; reflexivity|reflexivity|discriminate|reflexivity].
Defined.

(** * What the client is told *)

Lemma serve_v1_line (input : list (ascii * readings)) :
  forall st st',
    V1.serve input st = Some st' ->
    current_line st' = line_after (current_line st) (map fst input).
Proof.
  induction input as [|[c r] input IH]; intros st st' S; cbn [V1.serve] in S.
  - now injection S as <-.
  - destruct (V1.proccess_command c r st) as [st1|] eqn:P; cbn [bind] in S;
      [|discriminate].
    rewrite (IH _ _ S).
    destruct (proccess_command_v1_effect _ _ _ _ P) as [L _].
    rewrite L. reflexivity.
Qed.

Lemma serve_v2_line (input : list (ascii * readings)) :
  forall st st',
    V2.serve input st = Some st' ->
    current_line st' = line_after (current_line st) (map fst input).
Proof.
  induction input as [|[c r] input IH]; intros st st' S; cbn [V2.serve] in S.
  - now injection S as <-.
  - destruct (V2.proccess_command c r st) as [st1|] eqn:P; cbn [bind] in S;
      [|discriminate].
    rewrite (IH _ _ S).
    destruct (proccess_command_v2_effect _ _ _ _ P) as [L _].
    rewrite L. reflexivity.
Qed.

Lemma blank_line_v1 (r : readings) (st : controller) (d : string) :
  current_line st = EmptyString ->
  V1.door_status_string (door_status st) = Some d ->
  V1.proccess_command newline r st = Some (emit (status_response_v1 d) st).
Proof.
  destruct st as [s l line out]; cbn [current_line door_status].
  intros -> D. unfold V1.proccess_command, V1.read_char, V1.respond.
  cbn [current_line door_status]. rewrite D. reflexivity.
Qed.

Lemma blank_line_v2 (r : readings) (st : controller) (d : string) :
  current_line st = EmptyString ->
  V2.door_status_string (door_status st) = Some d ->
  V2.proccess_command newline r st = Some (emit (status_response_v2 d) st).
Proof.
  destruct st as [s l line out]; cbn [current_line door_status].
  intros -> D. unfold V2.proccess_command.
  change (V2.dispatch r (mkController s l EmptyString out))
    with (Some (mkController s l EmptyString out)).
  cbn [bind]. unfold V2.read_char, V2.respond.
  cbn [current_line door_status]. rewrite D. reflexivity.
Qed.

(** X17. In revision 1 the response to a trigger request names the status
    after the trigger. For a request that starts "GET /trigger" on an empty
    line, goes on with characters that complete no further command and end
    on an empty line, and closes with the newline of a blank line: all of it
    is processed, the one response sent carries the description of the
    status [trigger_door] left, and the door is as [trigger_door] left
    it. *)
Theorem trigger_response_names_new_status (r r' : readings)
    (rest : list (ascii * readings)) (st : controller) :
  current_line st = EmptyString ->
  never_matches_v1 "GET /trigger" (map fst rest) = true ->
  line_after "GET /trigger" (map fst rest) = EmptyString ->
  exists st1 st2 d,
    V1.trigger_door r (set_current_line "GET /trigger" st) = Some st1
    /\ V1.door_status_string (door_status st1) = Some d
    /\ V1.serve (request "trigger" r ++ rest) st = Some st2
    /\ V1.serve (request "trigger" r ++ rest ++ [(newline, r')]) st
       = Some (emit (status_response_v1 d) st2)
    /\ same_door st1 (emit (status_response_v1 d) st2).
Proof.
  intros L N E.
  destruct (trigger_door_v1_total r (set_current_line "GET /trigger" st))
    as [st1 [T [L1 _]]].
  cbn [current_line set_current_line] in L1.
  assert (N1 := N). rewrite <- L1 in N1.
  destruct (serve_v1_unmatched rest st1 N1) as [st2 [S2 D2]].
  destruct (door_status_string_total_v1 (door_status st1)) as [d D].
  assert (S : V1.serve (request "trigger" r ++ rest) st = Some st2)
    by (rewrite serve_v1_app, (serve_v1_trigger_request r st L), T;
        exact S2).
  assert (L2 : current_line st2 = EmptyString)
    by (rewrite (serve_v1_line _ _ _ S2), L1; exact E).
  assert (D' : V1.door_status_string (door_status st2) = Some d)
    by (destruct D2 as [-> _]; exact D).
  exists st1, st2, d. split; [exact T|]. split; [exact D|].
  split; [exact S|]. split.
  - rewrite app_assoc, serve_v1_app, S. cbn [bind V1.serve].
    rewrite (blank_line_v1 r' st2 d L2 D'). reflexivity.
  - destruct D2 as [A [B C]]. repeat split; cbn [door_status emit]; auto.
    rewrite pulses_emit, C. cbn. lia.
Qed.

Lemma trigger_response_names_new_status_witness :
  exists st1 st2 d,
    V1.trigger_door (mkReadings 1 0 5000)
      (set_current_line "GET /trigger"
         (mkController open_status 0 EmptyString [])) = Some st1
    /\ V1.door_status_string (door_status st1) = Some d
    /\ V1.serve
         (request "trigger" (mkReadings 1 0 5000)
          ++ map (fun c => (c, mkReadings 0 0 6000))
               (list_ascii_of_string " HTTP/1.1"
                ++ [carriage_return; newline; carriage_return]))
         (mkController open_status 0 EmptyString []) = Some st2
    /\ V1.serve
         (request "trigger" (mkReadings 1 0 5000)
          ++ map (fun c => (c, mkReadings 0 0 6000))
               (list_ascii_of_string " HTTP/1.1"
                ++ [carriage_return; newline; carriage_return])
          ++ [(newline, mkReadings 0 0 6001)])
         (mkController open_status 0 EmptyString [])
       = Some (emit (status_response_v1 d) st2)
    /\ same_door st1 (emit (status_response_v1 d) st2).
Proof.
  apply (trigger_response_names_new_status (mkReadings 1 0 5000)
           (mkReadings 0 0 6001)
           (map (fun c => (c, mkReadings 0 0 6000))
              (list_ascii_of_string " HTTP/1.1"
               ++ [carriage_return; newline; carriage_return]))
           (mkController open_status 0 EmptyString []));
    reflexivity.
Defined.

(** X18. In revision 2 the response to an open or close request names the
    status after the command. For a request that starts "GET /open" or
    "GET /close" on an empty line, goes on with at least one character and
    with characters that complete no further command and end on an empty
    line, and closes with the newline of a blank line: all of it is
    processed, and the one response sent carries the description of the
    next status the table gives for the command. *)
Theorem command_response_names_new_status (command : V2.command_id)
    (r r' r'' : readings) (c : ascii) (rest : list (ascii * readings))
    (st : controller) :
  command = V2.open_command \/ command = V2.close_command ->
  current_line st = EmptyString ->
  door_status st <> cancelled_status ->
  never_matches_v2
    (next_line c (String.append "GET /" (command_text_v2 command)))
    (map fst rest) = true ->
  line_after (next_line c (String.append "GET /" (command_text_v2 command)))
    (map fst rest) = EmptyString ->
  exists st2 d,
    V2.door_status_string (V2.next_door_status command (door_status st))
    = Some d
    /\ V2.serve (request (command_text_v2 command) r ++ (c, r') :: rest) st
       = Some st2
    /\ V2.serve
         (request (command_text_v2 command) r ++ ((c, r') :: rest)
          ++ [(newline, r'')]) st
       = Some (emit (status_response_v2 d) st2)
    /\ door_status st2 = V2.next_door_status command (door_status st).
Proof.
  intros C L N M E.
  destruct (serve_v2_after_command command r r' c rest st C L N M)
    as [st2 [S [A _]]].
  rewrite trigger_door_v2_unfold in A.
  cbn [door_status set_current_line] in A.
  assert (N2 : door_status st2 <> cancelled_status).
  { rewrite A. pose proof (trigger_door_v2_not_cancelled command r' st N) as T.
    rewrite trigger_door_v2_unfold in T. exact T. }
  destruct (door_status_string_total_v2 _ N2) as [d D].
  assert (L2 : current_line st2 = EmptyString).
  { rewrite (serve_v2_line _ _ _ S), map_app, L.
    unfold line_after. rewrite fold_left_app.
    change (fold_left (fun l c0 => next_line c0 l)
              (map fst (request (command_text_v2 command) r)) EmptyString)
      with (line_after EmptyString
              (map fst (request (command_text_v2 command) r))).
    replace (line_after EmptyString
               (map fst (request (command_text_v2 command) r)))
      with (String.append "GET /" (command_text_v2 command))
      by (destruct C as [-> | ->]; reflexivity).
    exact E. }
  exists st2, d. split; [now rewrite <- A|]. split; [exact S|].
  split; [|exact A].
  rewrite app_assoc, serve_v2_app, S. cbn [bind V2.serve].
  rewrite (blank_line_v2 r'' st2 d L2 D). reflexivity.
Qed.

Lemma command_response_names_new_status_witness :
  exists st2 d,
    V2.door_status_string (V2.next_door_status V2.close_command open_status)
    = Some d
    /\ V2.serve
         (request "close" (mkReadings 1 0 5000)
          ++ (" "%char, mkReadings 1 0 5002)
             :: map (fun c => (c, mkReadings 0 0 6000))
                  (list_ascii_of_string "HTTP/1.1"
                   ++ [carriage_return; newline; carriage_return]))
         (mkController open_status 0 EmptyString []) = Some st2
    /\ V2.serve
         (request "close" (mkReadings 1 0 5000)
          ++ ((" "%char, mkReadings 1 0 5002)
              :: map (fun c => (c, mkReadings 0 0 6000))
                   (list_ascii_of_string "HTTP/1.1"
                    ++ [carriage_return; newline; carriage_return]))
          ++ [(newline, mkReadings 0 0 6001)])
         (mkController open_status 0 EmptyString [])
       = Some (emit (status_response_v2 d) st2)
    /\ door_status st2 = V2.next_door_status V2.close_command open_status.
Proof.
  apply (command_response_names_new_status V2.close_command
           (mkReadings 1 0 5000) (mkReadings 1 0 5002) (mkReadings 0 0 6001)
           " "%char
           (map (fun c => (c, mkReadings 0 0 6000))
              (list_ascii_of_string "HTTP/1.1"
               ++ [carriage_return; newline; carriage_return]))
           (mkController open_status 0 EmptyString []));
    [right; reflexivity|reflexivity|discriminate|reflexivity|reflexivity].
Defined.

(** * Interrupts during the pulse *)

Lemma interrupts_v1_inv (rs : list readings) :
  forall st st',
    V1.interrupts rs st = Some st' ->
    door_status st <> cancelled_status ->
    door_status st' <> cancelled_status
    /\ (rs <> [] ->
        In (door_status st')
           [open_status; closed_status; error_status; stuck_status])
    /\ current_line st' = current_line st
    /\ exists log,
         emitted st' = (emitted st ++ log)%list
         /\ forallb is_log log = true.
Proof.
  induction rs as [|r rs IH]; intros st st' I N; cbn [V1.interrupts] in I.
  - injection I as <-. split; [exact N|]. split; [congruence|].
    split; [reflexivity|]. exists []. split; [now rewrite app_nil_r|reflexivity].
  - destruct (V1.switch_interrupt r st) as [st1|] eqn:S; cbn [bind] in I;
      [|discriminate].
    destruct (switch_interrupt_v1_inv _ _ _ S) as [s1 [d [E [_ E1]]]].
    assert (N1 : door_status st1 <> cancelled_status).
    { subst st1. cbn [door_status]. intros ->.
      apply N. now apply resolver_v1_cancelled in E. }
    assert (R1 : In (door_status st1)
                   [open_status; closed_status; error_status; stuck_status]).
    { pose proof (resolver_v1_range _ _ _ _ E) as R.
      subst st1. cbn [door_status] in *. cbn in R |- *.
      destruct R as [R|[R|[R|[R|[R|[]]]]]]; auto.
      subst s1. contradiction. }
    destruct (IH st1 st' I N1) as [N' [R' [L' [log [E' F']]]]].
    split; [exact N'|]. split; [|split].
    + intros _. destruct rs as [|r2 rs].
      * cbn [V1.interrupts] in I. injection I as <-. exact R1.
      * apply R'. discriminate.
    + rewrite L'. subst st1. reflexivity.
    + exists ([LogDoorStatus d (0 <? last_door_trigger st)] ++ log)%list.
      split.
      * rewrite E'. subst st1. cbn [emitted]. now rewrite app_assoc.
      * cbn. exact F'.
Qed.

Lemma interrupts_v1_total (rs : list readings) :
  forall st,
    Forall readings_are_bits rs -> exists st', V1.interrupts rs st = Some st'.
Proof.
  induction rs as [|r rs IH]; intros st B; cbn [V1.interrupts].
  - now eexists.
  - inversion B as [|? ? Br Brs]; subst.
    destruct (switch_interrupt_v1_total r st Br) as [st1 S].
    rewrite S. cbn [bind]. now apply IH.
Qed.

Lemma interrupts_v2_inv (rs : list readings) :
  forall st st',
    V2.interrupts rs st = Some st' ->
    door_status st <> cancelled_status ->
    door_status st' <> cancelled_status /\ emitted st' = emitted st.
Proof.
  induction rs as [|r rs IH]; intros st st' I N; cbn [V2.interrupts] in I.
  - injection I as <-. now split.
  - unfold V2.switch_interrupt in I.
    destruct (V2.refresh r st) as [st1|] eqn:R; cbn [bind] in I;
      [|discriminate].
    assert (N1 : door_status st1 <> cancelled_status)
      by (intros C; apply N; eapply refresh_v2_cancelled; eassumption).
    destruct (IH st1 st' I N1) as [N' E'].
    split; [exact N'|]. rewrite E'.
    destruct (refresh_v2_inv _ _ _ R) as [s1 [_ ->]]. reflexivity.
Qed.

Lemma interrupts_v2_total (rs : list readings) :
  forall st,
    Forall readings_are_bits rs -> exists st', V2.interrupts rs st = Some st'.
Proof.
  induction rs as [|r rs IH]; intros st B; cbn [V2.interrupts].
  - now eexists.
  - inversion B as [|? ? Br Brs]; subst.
    destruct (refresh_v2_total r st Br) as [st1 S].
    unfold V2.switch_interrupt. rewrite S. cbn [bind]. now apply IH.
Qed.

Lemma trigger_door_preempted_v1_none (r : readings) (st : controller) :
  V1.trigger_door_preempted [] r st = V1.trigger_door r st.
Proof.
  unfold V1.trigger_door_preempted, V1.trigger_door.
  destruct (_ || _); [reflexivity|].
  cbn [V1.interrupts bind]. unfold emit, set_last_door_trigger, press_button.
  cbn [door_status last_door_trigger current_line emitted].
  now rewrite <- app_assoc.
Qed.

Lemma trigger_door_preempted_v2_none (command : V2.command_id)
    (r : readings) (st : controller) :
  V2.trigger_door_preempted command [] r st
  = Some (V2.trigger_door command r st).
Proof.
  unfold V2.trigger_door_preempted, V2.trigger_door.
  cbn [door_status set_last_door_trigger set_door_status].
  destruct (status_eqb _ _); [reflexivity|].
  cbn [V2.interrupts bind]. unfold emit, press_button.
  cbn [door_status last_door_trigger current_line emitted].
  now rewrite <- app_assoc.
Qed.

Lemma trigger_door_preempted_v1_inv (during_pulse : list readings)
    (r : readings) (st st' : controller) :
  door_status st <> cancelled_status ->
  door_status st <> stuck_status ->
  door_status st <> error_status ->
  V1.trigger_door_preempted during_pulse r st = Some st' ->
  (door_status st' = cancelled_status ->
   during_pulse = [] /\ door_status st = opening_status)
  /\ exists log,
       emitted st'
       = (emitted st ++ [DigitalWrite trigger_door_pin true] ++ log
          ++ [Delay 1000; DigitalWrite trigger_door_pin false])%list
       /\ forallb is_log log = true.
Proof.
  intros N Ns Ne T. unfold V1.trigger_door_preempted in T.
  apply status_eqb_neq in Ns, Ne. rewrite Ns, Ne in T. cbn [orb] in T.
  destruct (V1.interrupts during_pulse _) as [st1|] eqn:I; cbn [bind] in T;
    [|discriminate].
  destruct (interrupts_v1_inv _ _ _ I) as [N1 [R1 [_ [log [E1 F1]]]]];
    [exact N|].
  cbn [emit emitted door_status set_last_door_trigger] in T, E1.
  destruct (V1.next_door_status (door_status st1)) as [next|] eqn:X;
    cbn [bind] in T; [|discriminate].
  injection T as <-. cbn [door_status emitted set_door_status]. split.
  - intros ->. destruct during_pulse as [|r1 rs].
    + cbn [V1.interrupts] in I. injection I as <-. split; [reflexivity|].
      cbn [door_status emit] in X.
      destruct (door_status st); try discriminate X; try reflexivity.
    + exfalso. assert (R : In (door_status st1)
                   [open_status; closed_status; error_status; stuck_status])
        by (apply R1; discriminate).
      cbn in R. destruct R as [R|[R|[R|[R|[]]]]]; rewrite <- R in X;
        discriminate X.
  - exists log. split; [|exact F1].
    unfold set_last_door_trigger, emit. cbn [emitted]. rewrite E1.
    now rewrite <- !app_assoc.
Qed.

Lemma trigger_door_preempted_v1_total (during_pulse : list readings)
    (r : readings) (st : controller) :
  Forall readings_are_bits during_pulse ->
  exists st', V1.trigger_door_preempted during_pulse r st = Some st'.
Proof.
  intros B. unfold V1.trigger_door_preempted.
  destruct (_ || _); [now eexists|].
  destruct (interrupts_v1_total during_pulse
              (emit [DigitalWrite trigger_door_pin true] st) B) as [st1 I].
  rewrite I. cbn [bind door_status emit set_last_door_trigger].
  destruct (door_status st1); eexists; reflexivity.
Qed.

Lemma trigger_door_preempted_v2_inv (command : V2.command_id)
    (during_pulse : list readings) (r : readings) (st st' : controller) :
  door_status st <> cancelled_status ->
  V2.trigger_door_preempted command during_pulse r st = Some st' ->
  door_status st' <> cancelled_status
  /\ emitted st' = emitted (V2.trigger_door command r st).
Proof.
  intros N T. unfold V2.trigger_door_preempted in T.
  rewrite trigger_door_v2_unfold. cbn [emitted].
  cbn [door_status set_last_door_trigger set_door_status] in T.
  assert (Nx : V2.next_door_status command (door_status st)
               <> cancelled_status).
  { pose proof (trigger_door_v2_not_cancelled command r st N) as X.
    rewrite trigger_door_v2_unfold in X. exact X. }
  destruct (status_eqb _ _).
  - injection T as <-. now split.
  - destruct (V2.interrupts during_pulse _) as [st1|] eqn:I; cbn [bind] in T;
      [|discriminate].
    destruct (interrupts_v2_inv _ _ _ I) as [N1 E1]; [exact Nx|].
    injection T as <-. split; [exact N1|].
    cbn [emit emitted] in *. rewrite E1. unfold press_button.
    now rewrite <- app_assoc.
Qed.

Lemma trigger_door_preempted_v2_total (command : V2.command_id)
    (during_pulse : list readings) (r : readings) (st : controller) :
  Forall readings_are_bits during_pulse ->
  exists st', V2.trigger_door_preempted command during_pulse r st = Some st'.
Proof.
  intros B. unfold V2.trigger_door_preempted.
  cbn [door_status set_last_door_trigger set_door_status].
  destruct (status_eqb _ _); [now eexists|].
  match goal with
  | |- context [V2.interrupts during_pulse ?s] =>
      destruct (interrupts_v2_total during_pulse s B) as [st1 I]
  end.
  rewrite I. now eexists.
Qed.

(** C9, amended. There is no cancel operation. From a status other than
    Cancelled: in revision 1 an operation of the sketch (interrupt, timeout,
    refresh, trigger, or a character received) leads to Cancelled only from
    Opening and only as the result of a call of [trigger_door], and
    [trigger_door] from Opening does lead to Cancelled; the resolver does
    not answer Cancelled; in revision 2 no operation leads to Cancelled,
    neither the close command from Opening nor the resolver. Interrupting
    the actuator pulse does not lead to Cancelled either: in both revisions
    a [trigger_door] whose pulse is interrupted by switch interrupts still
    writes the whole pulse (high, the log entries of the interrupts, one
    second, low), returns when the switches read 0 or 1, and in revision 1
    ends in Cancelled only when no interrupt came and the status was
    Opening, in revision 2 never. *)
Theorem cancelled_only_by_trigger_from_opening (st : controller) :
  door_status st <> cancelled_status ->
  (forall o st',
     V1.step o st = Some st' ->
     door_status st' = cancelled_status ->
     door_status st = opening_status
     /\ exists r st0,
          door_status st0 = opening_status
          /\ V1.trigger_door r st0 = Some st')
  /\ (door_status st = opening_status ->
      forall r, exists st',
        V1.trigger_door r st = Some st'
        /\ door_status st' = cancelled_status
        /\ pulsed st st' = true)
  /\ (forall r s, V1.get_door_status r st = Some s -> s <> cancelled_status)
  /\ (forall o st',
        V2.step o st = Some st' -> door_status st' <> cancelled_status)
  /\ (forall r p,
        V2.get_door_status r st = Some p -> fst p <> cancelled_status)
  /\ (forall r, V1.trigger_door_preempted [] r st = V1.trigger_door r st)
  /\ (forall during_pulse r st',
        V1.trigger_door_preempted during_pulse r st = Some st' ->
        door_status st' = cancelled_status ->
        during_pulse = [] /\ door_status st = opening_status)
  /\ (forall during_pulse r st',
        door_status st <> stuck_status ->
        door_status st <> error_status ->
        V1.trigger_door_preempted during_pulse r st = Some st' ->
        exists log,
          emitted st'
          = (emitted st ++ [DigitalWrite trigger_door_pin true] ++ log
             ++ [Delay 1000; DigitalWrite trigger_door_pin false])%list
          /\ forallb is_log log = true)
  /\ (forall during_pulse r,
        Forall readings_are_bits during_pulse ->
        exists st', V1.trigger_door_preempted during_pulse r st = Some st')
  /\ (forall command r,
        V2.trigger_door_preempted command [] r st
        = Some (V2.trigger_door command r st))
  /\ (forall command during_pulse r st',
        V2.trigger_door_preempted command during_pulse r st = Some st' ->
        door_status st' <> cancelled_status
        /\ emitted st' = emitted (V2.trigger_door command r st))
  /\ (forall command during_pulse r,
        Forall readings_are_bits during_pulse ->
        exists st',
          V2.trigger_door_preempted command during_pulse r st = Some st').
Proof.
  intros N.
  split; [|split; [|split; [|split; [|split; [|split; [|split;
    [|split; [|split; [|split; [|split]]]]]]]]]].
  - intros o st' S C. eapply step_v1_cancelled; eassumption.
  - intros O r. now apply trigger_door_v1_from_opening.
  - intros r s G ->. apply N. unfold V1.get_door_status in G.
    now apply resolver_v1_cancelled in G.
  - intros o st'. now apply step_v2_not_cancelled.
  - intros r [s st1] G C. cbn in C; subst s. apply N.
    unfold V2.get_door_status in G.
    cbn [door_status set_last_door_trigger] in G.
    destruct (V2.door_status_of_switches _ _ _) as [s|] eqn:E;
      cbn [bind] in G; [|discriminate].
    injection G as -> _. now apply resolver_v2_cancelled in E.
  - intros r. apply trigger_door_preempted_v1_none.
  - intros during_pulse r st' T C.
    destruct (status_eqb (door_status st) stuck_status) eqn:Es.
    { unfold V1.trigger_door_preempted in T. rewrite Es in T.
      cbn [orb] in T. injection T as <-. contradiction. }
    destruct (status_eqb (door_status st) error_status) eqn:Ee.
    { unfold V1.trigger_door_preempted in T. rewrite Es, Ee in T.
      cbn [orb] in T. injection T as <-. contradiction. }
    apply status_eqb_neq in Es, Ee.
    destruct (trigger_door_preempted_v1_inv _ _ _ _ N Es Ee T) as [K _].
    now apply K.
  - intros during_pulse r st' Ns Ne T.
    destruct (trigger_door_preempted_v1_inv _ _ _ _ N Ns Ne T) as [_ K].
    exact K.
  - intros during_pulse r B. now apply trigger_door_preempted_v1_total.
  - intros command r. apply trigger_door_preempted_v2_none.
  - intros command during_pulse r st' T.
    now apply (trigger_door_preempted_v2_inv command during_pulse r st).
  - intros command during_pulse r B.
    now apply trigger_door_preempted_v2_total.
Qed.

Lemma cancelled_only_by_trigger_from_opening_witness :
  exists st',
    V1.trigger_door (mkReadings 0 0 9000)
      (mkController opening_status 4000 EmptyString press_button) = Some st'
    /\ door_status st' = cancelled_status
    /\ pulsed (mkController opening_status 4000 EmptyString press_button) st'
       = true.
Proof.
  refine (proj1 (proj2 (cancelled_only_by_trigger_from_opening
            (mkController opening_status 4000 EmptyString press_button) _))
            eq_refl (mkReadings 0 0 9000)).
  discriminate.
Defined.
